(** * Voice-command hook ([useVoiceCommands]) and the Scan page callbacks

    A shallow embedding of the React hook [useVoiceCommands] and of the
    callbacks the [Scan] page registers with it.

    - JavaScript strings are modelled as [string]; the model covers ASCII
      transcripts, on which [toLowerCase], [trim] and [includes] below
      agree with the JavaScript methods of the same names.
    - The hook's React state ([isListening], [isSupported], [lastCommand]),
      its ref ([recognitionRef]) and the browser's recognition objects live
      in one [World]; state setters take effect at once.
    - Every primitive effect (a setter, a ref write, an engine call, speech,
      the console, a synthesized DOM event, navigation) is appended to the
      world's [trace], so that the order of effects can be stated.
    - Callbacks supplied by the caller are arbitrary world transformers. *)

From Stdlib Require Import String Ascii List Bool Arith Lia.
Import ListNotations.
Local Open Scope string_scope.
Local Open Scope list_scope.
Local Open Scope nat_scope.

(* ================================================================= *)
(** ** JavaScript string methods used by the hook *)

(** [String.prototype.toLowerCase], on ASCII: the letters A-Z are mapped
    to a-z and every other character is kept. *)
Definition lower_ascii (c : ascii) : ascii :=
  let n := nat_of_ascii c in
  if (65 <=? n) && (n <=? 90) then ascii_of_nat (n + 32) else c.

Fixpoint toLowerCase (s : string) : string :=
  match s with
  | EmptyString => EmptyString
  | String c s' => String (lower_ascii c) (toLowerCase s')
  end.

(** The ASCII white space and line terminators that [trim] strips:
    TAB, LF, VT, FF, CR and SPACE. *)
Definition is_space (c : ascii) : bool :=
  let n := nat_of_ascii c in
  ((9 <=? n) && (n <=? 13)) || (n =? 32).

Fixpoint trimStart (s : string) : string :=
  match s with
  | EmptyString => EmptyString
  | String c s' => if is_space c then trimStart s' else s
  end.

(** [trimEnd s] drops the trailing white space: a white-space character is
    kept only when something non-blank follows it. *)
Fixpoint trimEnd (s : string) : string :=
  match s with
  | EmptyString => EmptyString
  | String c s' =>
      match trimEnd s' with
      | EmptyString => if is_space c then EmptyString else String c EmptyString
      | r => String c r
      end
  end.

Definition trim (s : string) : string := trimEnd (trimStart s).

(** [s.includes(p)]: [p] occurs in [s] at some position. *)
Fixpoint includes (s p : string) : bool :=
  if String.prefix p s then true
  else match s with
       | EmptyString => false
       | String _ s' => includes s' p
       end.

(** The mathematical reading of "substring". *)
Definition Substring (p s : string) : Prop :=
  exists a b : string, s = (a ++ p ++ b)%string.

(* ================================================================= *)
(** ** Data model *)

(** [type VoiceCommand = 'capture' | 'add' | ... | 'undo'] *)
Inductive VoiceCommand : Set :=
  | capture | add | details | cart | help | start | stop | undo.

(** The string each tag is, as interpolated by a template literal. *)
Definition VoiceCommand_str (c : VoiceCommand) : string :=
  match c with
  | capture => "capture"
  | add => "add"
  | details => "details"
  | cart => "cart"
  | help => "help"
  | start => "start"
  | stop => "stop"
  | undo => "undo"
  end.

(** [new KeyboardEvent(type, { key, code, ctrlKey, shiftKey })]; the
    members left out of the init dictionary take their defaults. *)
Record KeyboardEvent : Set := {
  ev_type : string;
  key : string;
  code : string;
  ctrlKey : bool;
  shiftKey : bool
}.

(** The application state the [Scan] page reads (from [useApp]), and the
    two reducer actions it dispatches. *)
Record Variant : Set := {
  variantId : string;
  size : string;
  price : nat;
  unitPrice : nat;
  stock : nat
}.

Record Product : Set := {
  productId : string;
  name : string;
  variants : list Variant
}.

Record Detection : Set := {
  label : string;
  suggestedProductId : option string
}.

Record AppState : Set := {
  currentProduct : option Product;
  detections : list Detection
}.

Inductive AppAction : Set :=
  | SET_CURRENT_PRODUCT (payload : Product)
  | TOGGLE_PRODUCT_MODAL (payload : bool).

(** Identity of a [SpeechRecognition] object: its index in the heap. *)
Definition Handle : Set := nat.

(** Observable effects, in the order they happen. *)
Inductive Effect : Set :=
  | ESpeak (text : string)                  (* speak(text) *)
  | EAnnounce (text : string)               (* announce(text) *)
  | EConsoleLog (args : list string)        (* console.log(...) *)
  | EConsoleError (args : list string)      (* console.error(...) *)
  | ESetIsListening (b : bool)              (* setIsListening(b) *)
  | ESetIsSupported (b : bool)              (* setIsSupported(b) *)
  | ESetLastCommand (c : VoiceCommand)      (* setLastCommand(c) *)
  | ERefWrite (r : option Handle)           (* recognitionRef.current = r *)
  | ENew (h : Handle)                       (* new SpeechRecognition() *)
  | ERecStart (h : Handle)                  (* recognition.start() *)
  | ERecStop (h : Handle)                   (* recognition.stop() *)
  | EDispatch (e : KeyboardEvent)           (* window.dispatchEvent(e) *)
  | ENavigate (path : string)               (* navigate(path) *)
  | EAppDispatch (a : AppAction).           (* dispatch(a) *)

(** What the user hears: the two channels of the narration service. *)
Definition audible (e : Effect) : bool :=
  match e with
  | ESpeak _ | EAnnounce _ => true
  | _ => false
  end.

Definition is_dispatch (e : Effect) : bool :=
  match e with
  | EDispatch _ => true
  | _ => false
  end.

(** A [SpeechRecognition] object: the three properties the hook sets, and
    the engine's own flag telling whether the session is running (set by
    [start()], cleared by [stop()] and when the session ends). *)
Record Session : Set := {
  continuous : bool;
  interimResults : bool;
  lang : string;
  started : bool
}.

Record World : Set := {
  isListening : bool;                    (* useState(false) *)
  isSupported : bool;                    (* useState(false) *)
  lastCommand : option VoiceCommand;     (* useState<string | null>(null) *)
  recognitionRef : option Handle;        (* useRef<SpeechRecognition | null>(null) *)
  sessions : list Session;               (* the recognition objects created so far *)
  trace : list Effect
}.

(** The hook right after its first render. *)
Definition initial : World :=
  {| isListening := false; isSupported := false; lastCommand := None;
     recognitionRef := None; sessions := []; trace := [] |}.

(* ================================================================= *)
(** ** Effects: a state monad over [World] *)

Definition M (A : Type) : Type := World -> A * World.

Definition ret {A : Type} (a : A) : M A := fun w => (a, w).

Definition bind {A B : Type} (m : M A) (k : A -> M B) : M B :=
  fun w => let (a, w') := m w in k a w'.

Notation "x <- m ;; k" := (bind m (fun x => k))
  (at level 61, m at next level, right associativity).
Notation "m ;; k" := (bind m (fun _ => k))
  (at level 61, right associativity).

(** Run a computation for its final world. *)
Definition exec {A : Type} (m : M A) (w : World) : World := snd (m w).

(** Run a computation for its result. *)
Definition result {A : Type} (m : M A) (w : World) : A := fst (m w).

Definition get {A : Type} (f : World -> A) : M A := fun w => (f w, w).

Definition emit (e : Effect) : M unit :=
  fun w => (tt, {| isListening := isListening w; isSupported := isSupported w;
                   lastCommand := lastCommand w;
                   recognitionRef := recognitionRef w;
                   sessions := sessions w; trace := trace w ++ [e] |}).

(** *** The narration service and the console *)

Definition speak (text : string) : M unit := emit (ESpeak text).
Definition announce (text : string) : M unit := emit (EAnnounce text).
Definition console_log (args : list string) : M unit := emit (EConsoleLog args).
Definition console_error (args : list string) : M unit := emit (EConsoleError args).

(** *** React state and the ref *)

Definition setIsListening (b : bool) : M unit :=
  fun w => emit (ESetIsListening b)
    {| isListening := b; isSupported := isSupported w;
       lastCommand := lastCommand w; recognitionRef := recognitionRef w;
       sessions := sessions w; trace := trace w |}.

Definition setIsSupported (b : bool) : M unit :=
  fun w => emit (ESetIsSupported b)
    {| isListening := isListening w; isSupported := b;
       lastCommand := lastCommand w; recognitionRef := recognitionRef w;
       sessions := sessions w; trace := trace w |}.

Definition setLastCommand (c : VoiceCommand) : M unit :=
  fun w => emit (ESetLastCommand c)
    {| isListening := isListening w; isSupported := isSupported w;
       lastCommand := Some c; recognitionRef := recognitionRef w;
       sessions := sessions w; trace := trace w |}.

Definition set_recognitionRef (r : option Handle) : M unit :=
  fun w => emit (ERefWrite r)
    {| isListening := isListening w; isSupported := isSupported w;
       lastCommand := lastCommand w; recognitionRef := r;
       sessions := sessions w; trace := trace w |}.

(** *** The browser's speech engine *)

Definition set_sessions (l : list Session) : M unit :=
  fun w => (tt, {| isListening := isListening w; isSupported := isSupported w;
                   lastCommand := lastCommand w;
                   recognitionRef := recognitionRef w;
                   sessions := l; trace := trace w |}).

(** [update h f l] applies [f] to the object at index [h]; a handle always
    names an object of the heap, and nothing happens at any other index. *)
Fixpoint update (h : Handle) (f : Session -> Session) (l : list Session)
  : list Session :=
  match l, h with
  | [], _ => []
  | s :: l', 0 => f s :: l'
  | s :: l', S h' => s :: update h' f l'
  end.

Definition modify (h : Handle) (f : Session -> Session) : M unit :=
  l <- get sessions ;; set_sessions (update h f l).

Definition with_started (b : bool) (s : Session) : Session :=
  {| continuous := continuous s; interimResults := interimResults s;
     lang := lang s; started := b |}.

Definition with_continuous (b : bool) (s : Session) : Session :=
  {| continuous := b; interimResults := interimResults s;
     lang := lang s; started := started s |}.

Definition with_interimResults (b : bool) (s : Session) : Session :=
  {| continuous := continuous s; interimResults := b;
     lang := lang s; started := started s |}.

Definition with_lang (l : string) (s : Session) : Session :=
  {| continuous := continuous s; interimResults := interimResults s;
     lang := l; started := started s |}.

(** [new SpeechRecognition()]: a fresh object with the defaults of the Web
    Speech API, not running. *)
Definition new_SpeechRecognition : M Handle :=
  l <- get sessions ;;
  let h := length l in
  set_sessions (l ++ [{| continuous := false; interimResults := false;
                         lang := EmptyString; started := false |}]) ;;
  emit (ENew h) ;;
  ret h.

(** The result of a call that may throw. *)
Inductive Outcome : Set :=
  | Returned
  | Threw (e : string).

(** [recognition.start()]: throws [InvalidStateError] on an object that is
    already started, otherwise the session starts running.  Recognition
    objects are independent of each other, as in the Web Speech API:
    starting one does not stop another. *)
Definition recognition_start (h : Handle) : M Outcome :=
  emit (ERecStart h) ;;
  l <- get sessions ;;
  match nth_error l h with
  | Some s =>
      if started s then ret (Threw "InvalidStateError")
      else modify h (with_started true) ;; ret Returned
  | None => ret (Threw "InvalidStateError")
  end.

(** [recognition.stop()]: the session stops running; never throws. *)
Definition recognition_stop (h : Handle) : M unit :=
  emit (ERecStop h) ;;
  modify h (with_started false).

(** The sessions that are running, by handle and in creation order. *)
Fixpoint running_from (h : Handle) (l : list Session) : list Handle :=
  match l with
  | [] => []
  | s :: l' => if started s then h :: running_from (S h) l'
               else running_from (S h) l'
  end.

Definition active_sessions (w : World) : list Handle :=
  running_from 0 (sessions w).

(* ================================================================= *)
(** ** The hook [useVoiceCommands] *)

(** A callback supplied by the caller: it may do anything to the world. *)
Definition Callback : Type := World -> World.

Record UseVoiceCommandsOptions : Type := {
  onCommand : option (VoiceCommand -> Callback);
  onCapture : option Callback;
  onAdd : option Callback;
  onDetails : option Callback;
  onCart : option Callback;
  onHelp : option Callback;
  onStart : option Callback;
  onStop : option Callback;
  onUndo : option Callback
}.

(** [useVoiceCommands(options = {})] *)
Definition no_options : UseVoiceCommandsOptions :=
  {| onCommand := None; onCapture := None; onAdd := None; onDetails := None;
     onCart := None; onHelp := None; onStart := None; onStop := None;
     onUndo := None |}.

(** [if (f) { f(); }] *)
Definition call (f : option Callback) : M unit :=
  match f with
  | Some g => fun w => (tt, g w)
  | None => ret tt
  end.

(** [if (f) { f(c); }] *)
Definition call_with (f : option (VoiceCommand -> Callback)) (c : VoiceCommand)
  : M unit :=
  match f with
  | Some g => fun w => (tt, g c w)
  | None => ret tt
  end.

(** One row of the table in [processCommand]. *)
Record CommandEntry : Type := {
  patterns : list string;
  command : VoiceCommand;
  handler : option Callback
}.

Definition commands (options : UseVoiceCommandsOptions) : list CommandEntry :=
  [ {| patterns := ["capture"; "take photo"; "snap"; "photograph"; "picture"];
       command := capture; handler := onCapture options |};
    {| patterns := ["add"; "add to cart"; "add item"; "buy"];
       command := add; handler := onAdd options |};
    {| patterns := ["details"; "more info"; "information"; "tell me more";
                    "what is this"];
       command := details; handler := onDetails options |};
    {| patterns := ["cart"; "go to cart"; "view cart"; "shopping cart";
                    "my cart"];
       command := cart; handler := onCart options |};
    {| patterns := ["help"; "assist"; "assistance"; "tutorial"];
       command := help; handler := onHelp options |};
    {| patterns := ["start"; "start camera"; "open camera"; "begin"];
       command := start; handler := onStart options |};
    {| patterns := ["stop"; "stop camera"; "close camera"; "end"];
       command := stop; handler := onStop options |};
    {| patterns := ["undo"; "cancel"; "remove last"; "go back"];
       command := undo; handler := onUndo options |} ].

(** [patterns.some(pattern => lowerTranscript.includes(pattern))] *)
Definition matches (lowerTranscript : string) (e : CommandEntry) : bool :=
  existsb (fun pattern => includes lowerTranscript pattern) (patterns e).

(** The [for ... of commands] loop with its early [return], followed by the
    code after the loop. *)
Fixpoint processCommand_loop (options : UseVoiceCommandsOptions)
  (lowerTranscript : string) (cs : list CommandEntry)
  : M (option VoiceCommand) :=
  match cs with
  | e :: rest =>
      if matches lowerTranscript e then
        setLastCommand (command e) ;;
        announce ("Command recognized: " ++ VoiceCommand_str (command e))%string ;;
        call (handler e) ;;
        call_with (onCommand options) (command e) ;;
        ret (Some (command e))
      else processCommand_loop options lowerTranscript rest
  | [] =>
      announce "Command not recognized. Try: capture, add, cart, help." ;;
      ret None
  end.

Definition processCommand (options : UseVoiceCommandsOptions)
  (transcript : string) : M (option VoiceCommand) :=
  let lowerTranscript := trim (toLowerCase transcript) in
  console_log ["Voice command received:"; lowerTranscript] ;;
  processCommand_loop options lowerTranscript (commands options).

(** *** Event handlers installed on a recognition object *)

(** The part of a [SpeechRecognitionEvent] the hook reads:
    [event.results[event.resultIndex]] and its first alternative. *)
Record SpeechRecognitionEvent : Set := {
  isFinal : bool;
  transcript : string
}.

Definition onstart : M unit :=
  setIsListening true ;;
  announce "Voice commands activated. Say a command like capture, add, or cart.".

Definition onend (recognition : Handle) : M unit :=
  setIsListening false ;;
  current <- get recognitionRef ;;
  match current with
  | Some h =>
      if h =? recognition then
        r <- recognition_start recognition ;;
        match r with
        | Returned => ret tt
        | Threw _ => console_log ["Recognition ended"]
        end
      else ret tt
  | None => ret tt
  end.

Definition onresult (options : UseVoiceCommandsOptions)
  (event : SpeechRecognitionEvent) : M unit :=
  if isFinal event then
    processCommand options (transcript event) ;; ret tt
  else ret tt.

Definition onerror (error : string) : M unit :=
  console_error ["Speech recognition error:"; error] ;;
  if (error =? "not-allowed")%string then
    speak "Microphone permission denied. Please allow microphone access." ;;
    setIsListening false
  else if negb (error =? "no-speech")%string && negb (error =? "aborted")%string then
    announce ("Voice error: " ++ error)%string
  else ret tt.

(** *** The control actions *)

Definition startListening : M unit :=
  supported <- get isSupported ;;
  if negb supported then
    speak "Voice commands are not supported in this browser."
  else
    recognition <- new_SpeechRecognition ;;
    modify recognition (with_continuous true) ;;
    modify recognition (with_interimResults false) ;;
    modify recognition (with_lang "en-US") ;;
    set_recognitionRef (Some recognition) ;;
    r <- recognition_start recognition ;;
    match r with
    | Returned => ret tt
    | Threw e => console_error ["Failed to start recognition:"; e]
    end.

Definition stopListening : M unit :=
  current <- get recognitionRef ;;
  match current with
  | Some recognition =>
      set_recognitionRef None ;;
      recognition_stop recognition ;;
      setIsListening false ;;
      announce "Voice commands deactivated."
  | None => ret tt
  end.

Definition toggleListening : M unit :=
  listening <- get isListening ;;
  if listening then stopListening else startListening.

(** The mount effect: [setIsSupported(!!SpeechRecognition)], where
    [available] tells whether the window has a recognition constructor. *)
Definition checkSupport (available : bool) : M unit :=
  setIsSupported available.

(** The unmount effect. *)
Definition cleanup : M unit :=
  current <- get recognitionRef ;;
  match current with
  | Some recognition =>
      recognition_stop recognition ;;
      set_recognitionRef None
  | None => ret tt
  end.

(** *** Events fired by the engine

    Every recognition object is created by [startListening], which installs
    the four handlers above before it starts the object, so an event of
    the object [h] runs the corresponding handler.  When a session ends the
    engine has cleared its running flag before [end] is fired. *)
Inductive EngineEvent : Set :=
  | EvStart (h : Handle)
  | EvEnd (h : Handle)
  | EvResult (h : Handle) (event : SpeechRecognitionEvent)
  | EvError (h : Handle) (error : string).

Definition deliver (options : UseVoiceCommandsOptions) (ev : EngineEvent)
  : M unit :=
  match ev with
  | EvStart _ => onstart
  | EvEnd h => modify h (with_started false) ;; onend h
  | EvResult _ event => onresult options event
  | EvError _ error => onerror error
  end.

(** What a user or the engine can do to a mounted hook. *)
Inductive Action : Set :=
  | AStart                       (* startListening() *)
  | AStop                        (* stopListening() *)
  | AToggle                      (* toggleListening() *)
  | AEngine (ev : EngineEvent).

Definition step (options : UseVoiceCommandsOptions) (a : Action) : M unit :=
  match a with
  | AStart => startListening
  | AStop => stopListening
  | AToggle => toggleListening
  | AEngine ev => deliver options ev
  end.

Fixpoint run (options : UseVoiceCommandsOptions) (l : list Action)
  (w : World) : World :=
  match l with
  | [] => w
  | a :: l' => run options l' (exec (step options a) w)
  end.

(** *** Vocabulary for the statements *)

(** The world [w] after the effects [es], its state untouched. *)
Definition extend (w : World) (es : list Effect) : World :=
  {| isListening := isListening w; isSupported := isSupported w;
     lastCommand := lastCommand w; recognitionRef := recognitionRef w;
     sessions := sessions w; trace := trace w ++ es |}.

(** The per-command callback of a command, as the table pairs them. *)
Definition handler_for (options : UseVoiceCommandsOptions) (c : VoiceCommand)
  : option Callback :=
  match c with
  | capture => onCapture options
  | add => onAdd options
  | details => onDetails options
  | cart => onCart options
  | help => onHelp options
  | start => onStart options
  | stop => onStop options
  | undo => onUndo options
  end.

(** An entry is triggered by a normalized transcript when one of its
    phrases occurs in it. *)
Definition Triggers (lowerTranscript : string) (e : CommandEntry) : Prop :=
  exists pattern : string,
    In pattern (patterns e) /\ Substring pattern lowerTranscript.

(** The first entry of the table, in table order, that is triggered. *)
Definition first_match (options : UseVoiceCommandsOptions)
  (lowerTranscript : string) : option VoiceCommand :=
  option_map command (find (matches lowerTranscript) (commands options)).

(** The session [h] is running. *)
Definition is_running (h : Handle) (w : World) : Prop :=
  exists s : Session, nth_error (sessions w) h = Some s /\ started s = true.

(** Every running session is the one the hook owns: the engine runs at
    most one session of this hook, and it is the one in the ref. *)
Definition only_owned_runs (w : World) : Prop :=
  forall h : Handle, is_running h w -> recognitionRef w = Some h.

(** The hook mounted in a browser that has a recognition constructor. *)
Definition mounted : World := exec (checkSupport true) initial.

(** The hook listening on its first session, the engine's [start] event
    delivered. *)
Definition listening_world : World :=
  run no_options [AStart; AEngine (EvStart 0)] mounted.

(** An action is guarded when it cannot start a session while the hook
    still owns one; results are left out, their callbacks being arbitrary. *)
Definition guarded (w : World) (a : Action) : Prop :=
  match a with
  | AStart => recognitionRef w = None
  | AToggle => isListening w = true \/ recognitionRef w = None
  | AEngine (EvResult _ _) => False
  | AStop | AEngine _ => True
  end.

Fixpoint all_guarded (options : UseVoiceCommandsOptions) (l : list Action)
  (w : World) : Prop :=
  match l with
  | [] => True
  | a :: l' => guarded w a /\ all_guarded options l' (exec (step options a) w)
  end.

(* ================================================================= *)
(** ** The callbacks of the [Scan] page *)

Definition dispatchEvent (e : KeyboardEvent) : M unit := emit (EDispatch e).
Definition navigate (path : string) : M unit := emit (ENavigate path).
Definition dispatch (a : AppAction) : M unit := emit (EAppDispatch a).

(** [new KeyboardEvent('keydown', { key })] and the like. *)
Definition keydown (k c : string) (ctrl shift : bool) : KeyboardEvent :=
  {| ev_type := "keydown"; key := k; code := c; ctrlKey := ctrl;
     shiftKey := shift |}.

Module Scan.

Definition onCapture : M unit :=
  speak "Capturing image." ;;
  dispatchEvent (keydown " " "Space" false false).

Definition onAdd (state : AppState) : M unit :=
  match currentProduct state with
  | Some _ =>
      speak "Adding item to cart." ;;
      dispatchEvent (keydown "a" EmptyString false false)
  | None =>
      speak "No product selected. Please scan a product first."
  end.

(** [a || b] on an optional string: [undefined] and the empty string are
    falsy. *)
Definition or_default (a : option string) (b : string) : string :=
  match a with
  | Some EmptyString | None => b
  | Some s => s
  end.

Definition onDetails (state : AppState) : M unit :=
  match detections state with
  | d :: _ =>
      speak "Opening product details." ;;
      dispatch (SET_CURRENT_PRODUCT
        {| productId := or_default (suggestedProductId d) "PRD001";
           name := label d;
           variants :=
             [ {| variantId := "V1"; size := "500 ml"; price := 45;
                  unitPrice := 90; stock := 12 |};
               {| variantId := "V2"; size := "1 L"; price := 80;
                  unitPrice := 80; stock := 3 |} ] |}) ;;
      dispatch (TOGGLE_PRODUCT_MODAL true)
  | [] =>
      speak "No product detected. Please point camera at a product first."
  end.

Definition onCart : M unit :=
  speak "Going to cart." ;; navigate "/cart".

Definition onHelp : M unit :=
  speak "Opening help page." ;; navigate "/help".

Definition onStart : M unit :=
  speak "Starting camera." ;;
  dispatchEvent (keydown "C" EmptyString true true).

Definition onStop : M unit :=
  speak "Stopping camera." ;;
  dispatchEvent (keydown "C" EmptyString true true).

Definition onUndo : M unit :=
  speak "Undoing last action." ;;
  dispatchEvent (keydown "u" EmptyString false false).

(** The options object the page passes to [useVoiceCommands]. *)
Definition options (state : AppState) : UseVoiceCommandsOptions :=
  Build_UseVoiceCommandsOptions
    None                              (* onCommand: not passed *)
    (Some (exec onCapture))
    (Some (exec (onAdd state)))
    (Some (exec (onDetails state)))
    (Some (exec onCart))
    (Some (exec onHelp))
    (Some (exec onStart))
    (Some (exec onStop))
    (Some (exec onUndo)).

End Scan.

(* ================================================================= *)
(** ** Further vocabulary *)

(** The phrases of a command that are not made redundant by a shorter
    phrase of the same command ("add to cart" contains "add", and so on). *)
Definition essential_patterns (c : VoiceCommand) : list string :=
  match c with
  | capture => ["capture"; "take photo"; "snap"; "photograph"; "picture"]
  | add => ["add"; "buy"]
  | details => ["details"; "more info"; "information"; "tell me more";
                "what is this"]
  | cart => ["cart"]
  | help => ["help"; "assist"; "tutorial"]
  | start => ["start"; "open camera"; "begin"]
  | stop => ["stop"; "close camera"; "end"]
  | undo => ["undo"; "cancel"; "remove last"; "go back"]
  end.

(** The three control actions the hook returns, as opposed to the events
    of the engine. *)
Definition is_control (a : Action) : Prop :=
  match a with
  | AStart | AStop | AToggle => True
  | AEngine _ => False
  end.

(* ================================================================= *)
(** ** Strings *)

Lemma prefix_iff (p s : string) :
  String.prefix p s = true <-> exists b : string, s = (p ++ b)%string.
Proof.
  revert s; induction p as [|c p IH]; intros [|d s]; simpl.
  - split; [intros _; now exists EmptyString | reflexivity].
  - split; [intros _; now exists (String d s) | reflexivity].
  - split; [discriminate | intros [b Hb]; discriminate].
  - destruct (ascii_dec c d) as [->|Hne].
    + rewrite IH. split; intros [b Hb]; exists b; congruence.
    + split; [discriminate | intros [b Hb]; congruence].
Qed.

Lemma includes_empty (p : string) : includes EmptyString p = String.prefix p EmptyString.
Proof. cbn [includes]. now destruct (String.prefix p EmptyString). Qed.

Lemma includes_String (c : ascii) (s p : string) :
  includes (String c s) p = String.prefix p (String c s) || includes s p.
Proof. cbn [includes]. now destruct (String.prefix p (String c s)). Qed.

Lemma Substring_here (p s : string) :
  String.prefix p s = true -> Substring p s.
Proof. intros H. apply prefix_iff in H. destruct H as [b Hb]. now exists EmptyString, b. Qed.

Lemma includes_iff (s p : string) :
  includes s p = true <-> Substring p s.
Proof.
  induction s as [|c s IH].
  - rewrite includes_empty. split; [apply Substring_here|].
    intros [a [b Hab]]. destruct a; [|discriminate].
    apply prefix_iff. now exists b.
  - rewrite includes_String, orb_true_iff, IH.
    split.
    + intros [H|[a [b Hab]]]; [now apply Substring_here|].
      exists (String c a), b. simpl. now rewrite Hab.
    + intros [a [b Hab]]. destruct a as [|d a]; simpl in Hab.
      * left. apply prefix_iff. now exists b.
      * right. injection Hab as _ Hs. now exists a, b.
Qed.

Lemma matches_iff (lowerTranscript : string) (e : CommandEntry) :
  matches lowerTranscript e = true <-> Triggers lowerTranscript e.
Proof.
  unfold matches, Triggers. rewrite existsb_exists.
  split; intros [x [Hin Hx]]; exists x; split; auto; now apply includes_iff.
Qed.

Lemma matches_false_iff (lowerTranscript : string) (e : CommandEntry) :
  matches lowerTranscript e = false <-> ~ Triggers lowerTranscript e.
Proof.
  rewrite <- matches_iff. symmetry. apply not_true_iff_false.
Qed.

(* ================================================================= *)
(** ** Classification: [processCommand] *)

Lemma extend_extend (w : World) (es fs : list Effect) :
  extend (extend w es) fs = extend w (es ++ fs).
Proof. unfold extend; simpl. now rewrite app_assoc. Qed.

Lemma emit_extend (e : Effect) (w : World) : emit e w = (tt, extend w [e]).
Proof. reflexivity. Qed.

(** The world once a command is recognized, before any callback runs. *)
Lemma recognized_world (c : VoiceCommand) (w : World) :
  exec (setLastCommand c ;;
        announce ("Command recognized: " ++ VoiceCommand_str c)%string) w =
  {| isListening := isListening w; isSupported := isSupported w;
     lastCommand := Some c; recognitionRef := recognitionRef w;
     sessions := sessions w;
     trace := trace w ++ [ESetLastCommand c;
                          EAnnounce ("Command recognized: " ++ VoiceCommand_str c)%string] |}.
Proof. unfold exec, bind; simpl. now rewrite <- app_assoc. Qed.

Lemma find_first {A : Type} (f : A -> bool) (l : list A) (x : A) :
  find f l = Some x ->
  exists pre post : list A,
    l = pre ++ x :: post /\ (forall y, In y pre -> f y = false) /\ f x = true.
Proof.
  induction l as [|a l IH]; simpl; [discriminate|].
  destruct (f a) eqn:Hfa.
  - intros [= ->]. exists [], l. repeat split; auto. intros y [].
  - intros H. destruct (IH H) as [pre [post [-> [Hpre Hx]]]].
    exists (a :: pre), post. repeat split; auto.
    intros y [<-|Hy]; auto.
Qed.

Lemma loop_skips (options : UseVoiceCommandsOptions) (lt : string)
  (pre rest : list CommandEntry) :
  (forall e, In e pre -> matches lt e = false) ->
  processCommand_loop options lt (pre ++ rest) =
  processCommand_loop options lt rest.
Proof.
  induction pre as [|a pre IH]; intros H; simpl; [reflexivity|].
  rewrite (H a) by now left. apply IH. intros e He. apply H. now right.
Qed.

Lemma loop_none (options : UseVoiceCommandsOptions) (lt : string)
  (cs : list CommandEntry) (w : World) :
  (forall e, In e cs -> matches lt e = false) ->
  processCommand_loop options lt cs w =
  (None, extend w [EAnnounce "Command not recognized. Try: capture, add, cart, help."]).
Proof.
  intros H. rewrite <- (app_nil_r cs), loop_skips by exact H. reflexivity.
Qed.

Lemma loop_hit (options : UseVoiceCommandsOptions) (lt : string)
  (e : CommandEntry) (post : list CommandEntry) (w : World) :
  matches lt e = true ->
  processCommand_loop options lt (e :: post) w =
  (Some (command e),
   exec (call_with (onCommand options) (command e))
     (exec (call (handler e))
        (exec (setLastCommand (command e) ;;
               announce ("Command recognized: " ++ VoiceCommand_str (command e))%string) w))).
Proof.
  intros H. simpl. rewrite H. unfold exec, bind; simpl.
  destruct (handler e), (onCommand options); reflexivity.
Qed.

Lemma loop_result (options : UseVoiceCommandsOptions) (lt : string)
  (cs : list CommandEntry) (w : World) :
  result (processCommand_loop options lt cs) w =
  option_map command (find (matches lt) cs).
Proof.
  induction cs as [|e cs IH]; [reflexivity|].
  simpl find. destruct (matches lt e) eqn:He.
  - unfold result. now rewrite loop_hit.
  - unfold result in *. simpl. now rewrite He.
Qed.

Lemma result_first_match (options : UseVoiceCommandsOptions) (t : string)
  (w : World) :
  result (processCommand options t) w =
  first_match options (trim (toLowerCase t)).
Proof.
  unfold first_match.
  rewrite <- (loop_result options _ _
    (extend w [EConsoleLog ["Voice command received:"; trim (toLowerCase t)]])).
  reflexivity.
Qed.

Lemma handler_in_table (options : UseVoiceCommandsOptions) (e : CommandEntry) :
  In e (commands options) -> handler e = handler_for options (command e).
Proof.
  unfold commands. simpl.
  intros H. repeat (destruct H as [<-|H]; [reflexivity|]). destruct H.
Qed.

(** C1. Whenever the lowercased, trimmed transcript contains a trigger
    phrase, [processCommand] returns the command of the first entry of the
    table whose phrases contain a match; the table is in the order capture,
    add, details, cart, help, start, stop, undo.  So "please add this to
    cart" gives [add], and "take a snapshot" gives [capture], "snap" being
    a substring of "snapshot". *)
Theorem processCommand_first_match :
  (forall options,
     map command (commands options) =
     [capture; add; details; cart; help; start; stop; undo]) /\
  (forall options t w,
     (exists e, In e (commands options) /\ Triggers (trim (toLowerCase t)) e) ->
     exists pre e post,
       commands options = pre ++ e :: post /\
       (forall e', In e' pre -> ~ Triggers (trim (toLowerCase t)) e') /\
       Triggers (trim (toLowerCase t)) e /\
       result (processCommand options t) w = Some (command e)) /\
  (forall options w,
     result (processCommand options "please add this to cart") w = Some add) /\
  (forall options w,
     Substring "snap" "snapshot" /\
     result (processCommand options "take a snapshot") w = Some capture).
Proof.
  split; [reflexivity|]. split; [|split].
  - intros options t w [e0 [Hin Htr]].
    rewrite result_first_match. unfold first_match.
    set (lt := trim (toLowerCase t)) in *.
    destruct (find (matches lt) (commands options)) as [e|] eqn:Hf.
    + destruct (find_first _ _ _ Hf) as [pre [post [Heq [Hpre He]]]].
      exists pre, e, post. repeat split; auto.
      * intros e' He'. apply matches_false_iff. now apply Hpre.
      * now apply matches_iff.
    + exfalso. apply matches_iff in Htr.
      rewrite (find_none _ _ Hf e0 Hin) in Htr. discriminate.
  - intros. now rewrite result_first_match.
  - intros. split; [now exists EmptyString, "shot" | now rewrite result_first_match].
Qed.

Lemma processCommand_first_match_witness :
  exists pre e post,
    commands no_options = pre ++ e :: post /\
    (forall e', In e' pre -> ~ Triggers "please add this to cart" e') /\
    Triggers "please add this to cart" e /\
    result (processCommand no_options "Please ADD this to cart ") initial
    = Some (command e).
Proof.
  apply (proj1 (proj2 processCommand_first_match) no_options
           "Please ADD this to cart " initial).
  exists {| patterns := ["cart"; "go to cart"; "view cart"; "shopping cart";
                         "my cart"];
            command := cart; handler := None |}.
  split; [simpl; tauto|].
  exists "cart". split; [now left|]. now exists "please add this to ", EmptyString.
Defined.

(** C3. When [processCommand] matches a command [c] it records [c] as
    [lastCommand], makes one announcement naming [c], then runs the
    per-command callback of [c] if one is registered, then runs the generic
    callback on the tag [c] if one is registered, and returns [c].  The
    final world is written out: [w1] is the world once [c] is recorded and
    announced, [w2] the world after the per-command callback (applied to
    [w1]), and the result is the world after the generic callback (applied
    to [c] and [w2]). *)
Theorem processCommand_on_match (options : UseVoiceCommandsOptions)
  (t : string) (w : World) (c : VoiceCommand) :
  result (processCommand options t) w = Some c ->
  let w1 :=
    {| isListening := isListening w; isSupported := isSupported w;
       lastCommand := Some c; recognitionRef := recognitionRef w;
       sessions := sessions w;
       trace := trace w ++
         [EConsoleLog ["Voice command received:"; trim (toLowerCase t)];
          ESetLastCommand c;
          EAnnounce ("Command recognized: " ++ VoiceCommand_str c)%string] |} in
  let w2 :=
    match
      match c with
      | capture => onCapture options
      | add => onAdd options
      | details => onDetails options
      | cart => onCart options
      | help => onHelp options
      | start => onStart options
      | stop => onStop options
      | undo => onUndo options
      end
    with
    | Some per_command => per_command w1
    | None => w1
    end in
  processCommand options t w =
  (Some c,
   match onCommand options with
   | Some any_command => any_command c w2
   | None => w2
   end).
Proof.
  intros Hres. cbv zeta.
  rewrite result_first_match in Hres. unfold first_match in Hres.
  destruct (find (matches (trim (toLowerCase t))) (commands options))
    as [e|] eqn:Hf; [|discriminate].
  injection Hres as <-.
  destruct (find_first _ _ _ Hf) as [pre [post [Heq [Hpre He]]]].
  assert (Hin : In e (commands options))
    by (rewrite Heq; apply in_or_app; right; now left).
  unfold processCommand, bind, console_log. rewrite emit_extend.
  rewrite Heq, loop_skips by exact Hpre. rewrite loop_hit by exact He.
  rewrite (handler_in_table _ _ Hin), recognized_world. simpl.
  rewrite <- app_assoc. simpl.
  change (match command e with
          | capture => onCapture options
          | add => onAdd options
          | details => onDetails options
          | cart => onCart options
          | help => onHelp options
          | start => onStart options
          | stop => onStop options
          | undo => onUndo options
          end) with (handler_for options (command e)).
  unfold exec, call, call_with.
  destruct (handler_for options (command e)) as [per_command|];
    destruct (onCommand options) as [any_command|]; reflexivity.
Qed.

(** Options with both kinds of callback registered, each leaving a mark of
    its own: the cart callback of the Scan page, and a generic callback
    that navigates to a path naming the command it is given. *)
Lemma processCommand_on_match_witness :
  processCommand
    {| onCommand :=
         Some (fun c => exec (navigate ("/command/" ++ VoiceCommand_str c)%string));
       onCapture := None; onAdd := None; onDetails := None;
       onCart := Some (exec Scan.onCart);
       onHelp := None; onStart := None; onStop := None; onUndo := None |}
    "go to cart" initial =
  (Some cart,
   {| isListening := false; isSupported := false; lastCommand := Some cart;
      recognitionRef := None; sessions := [];
      trace := [EConsoleLog ["Voice command received:"; "go to cart"];
                ESetLastCommand cart;
                EAnnounce "Command recognized: cart";
                ESpeak "Going to cart."; ENavigate "/cart";
                ENavigate "/command/cart"] |}).
Proof.
  rewrite (processCommand_on_match
             {| onCommand :=
                  Some (fun c => exec (navigate ("/command/" ++ VoiceCommand_str c)%string));
                onCapture := None; onAdd := None; onDetails := None;
                onCart := Some (exec Scan.onCart);
                onHelp := None; onStart := None; onStop := None; onUndo := None |}
             "go to cart" initial cart); reflexivity.
Defined.

(** C4. When the lowercased, trimmed transcript contains no trigger phrase,
    [processCommand] returns no command and its only effects are the console
    line and one "not recognized" announcement: no callback runs and
    [lastCommand] keeps its value. *)
Theorem processCommand_no_match (options : UseVoiceCommandsOptions)
  (t : string) (w : World) :
  (forall e, In e (commands options) -> ~ Triggers (trim (toLowerCase t)) e) ->
  processCommand options t w =
  (None,
   extend w
     [EConsoleLog ["Voice command received:"; trim (toLowerCase t)];
      EAnnounce "Command not recognized. Try: capture, add, cart, help."]).
Proof.
  intros H. unfold processCommand, bind, console_log.
  rewrite emit_extend, loop_none.
  - now rewrite extend_extend.
  - intros e He. apply matches_false_iff. now apply H.
Qed.

Lemma no_trigger_by_computation (options : UseVoiceCommandsOptions)
  (lt : string) :
  forallb (fun e => negb (matches lt e)) (commands options) = true ->
  forall e, In e (commands options) -> ~ Triggers lt e.
Proof.
  intros H e He. apply matches_false_iff.
  rewrite forallb_forall in H. specialize (H e He).
  now destruct (matches lt e).
Qed.

Lemma processCommand_no_match_witness :
  processCommand no_options "  Hello World " initial =
  (None,
   {| isListening := false; isSupported := false; lastCommand := None;
      recognitionRef := None; sessions := [];
      trace := [EConsoleLog ["Voice command received:"; "hello world"];
                EAnnounce "Command not recognized. Try: capture, add, cart, help."] |}).
Proof.
  apply (processCommand_no_match no_options "  Hello World " initial).
  apply no_trigger_by_computation. reflexivity.
Defined.

(* ================================================================= *)
(** ** The heap of recognition objects *)

Lemma nth_error_update_same (h : Handle) (f : Session -> Session)
  (l : list Session) :
  nth_error (update h f l) h = option_map f (nth_error l h).
Proof.
  revert h; induction l as [|s l IH]; intros [|h]; simpl; auto.
Qed.

Lemma nth_error_update_other (h k : Handle) (f : Session -> Session)
  (l : list Session) :
  h <> k -> nth_error (update h f l) k = nth_error l k.
Proof.
  revert h k; induction l as [|s l IH]; intros [|h] [|k] Hne; simpl; auto;
    congruence.
Qed.

Lemma update_app_last (f : Session -> Session) (l : list Session) (s : Session) :
  update (length l) f (l ++ [s]) = l ++ [f s].
Proof. induction l as [|a l IH]; simpl; [reflexivity | now rewrite IH]. Qed.

Lemma nth_error_app_last (l : list Session) (s : Session) :
  nth_error (l ++ [s]) (length l) = Some s.
Proof. induction l as [|a l IH]; simpl; auto. Qed.

Lemma running_from_In (l : list Session) (k h : Handle) :
  In h (running_from k l) <->
  exists s, k <= h /\ nth_error l (h - k) = Some s /\ started s = true.
Proof.
  revert k; induction l as [|a l IH]; intros k; simpl.
  - split; [intros [] | intros [s [_ [H _]]]].
    destruct (h - k); discriminate.
  - assert (Hrest : In h (running_from (S k) l) <->
              exists s, k < h /\ nth_error (a :: l) (h - k) = Some s /\
                        started s = true).
    { rewrite IH. split; intros [s [Hle [Hn Hs]]]; exists s; repeat split; auto.
      - replace (h - k) with (S (h - S k)) by lia. exact Hn.
      - replace (h - k) with (S (h - S k)) in Hn by lia. exact Hn. }
    destruct (started a) eqn:Ha; simpl; rewrite Hrest.
    + split.
      * intros [<-|[s [Hlt H]]].
        -- exists a. rewrite Nat.sub_diag. auto.
        -- exists s. split; [lia | exact H].
      * intros [s [Hle [Hn Hs]]].
        destruct (Nat.eq_dec k h) as [->|Hne]; [now left|].
        right. exists s. repeat split; auto. lia.
    + split.
      * intros [s [Hlt H]]. exists s. split; [lia | exact H].
      * intros [s [Hle [Hn Hs]]].
        destruct (Nat.eq_dec k h) as [->|Hne].
        -- rewrite Nat.sub_diag in Hn. simpl in Hn. congruence.
        -- exists s. repeat split; auto. lia.
Qed.

(** [active_sessions] lists exactly the running sessions. *)
Lemma active_sessions_spec (h : Handle) (w : World) :
  In h (active_sessions w) <-> is_running h w.
Proof.
  unfold active_sessions, is_running. rewrite running_from_In.
  rewrite Nat.sub_0_r.
  split; intros [s H]; exists s; [tauto | split; [lia | exact H]].
Qed.

Lemma stopped_not_running (h : Handle) (l : list Session) (s : Session) :
  nth_error (update h (with_started false) l) h = Some s -> started s = false.
Proof.
  rewrite nth_error_update_same.
  destruct (nth_error l h); simpl; [intros [= <-]; reflexivity | discriminate].
Qed.

(* ================================================================= *)
(** ** Session lifecycle *)

(** Unfold the primitives of the monad and compute. *)
Ltac run_m :=
  unfold bind, get, ret, speak, announce, console_log, console_error,
    setIsListening, setIsSupported, setLastCommand, set_recognitionRef,
    dispatchEvent, navigate, dispatch, modify, set_sessions, emit;
  simpl.

Lemma startListening_supported (w : World) :
  isSupported w = true ->
  startListening w =
  (tt,
   {| isListening := isListening w; isSupported := isSupported w;
      lastCommand := lastCommand w;
      recognitionRef := Some (length (sessions w));
      sessions := sessions w ++
        [{| continuous := true; interimResults := false; lang := "en-US";
            started := true |}];
      trace := trace w ++ [ENew (length (sessions w));
                           ERefWrite (Some (length (sessions w)));
                           ERecStart (length (sessions w))] |}).
Proof.
  intros H.
  unfold startListening, bind, get, new_SpeechRecognition, recognition_start,
    modify, set_sessions, set_recognitionRef, emit, bind, get, ret.
  destruct w as [l0 sup lc r ss tr]; simpl in *; subst sup; simpl.
  rewrite !update_app_last, nth_error_app_last. simpl.
  rewrite update_app_last, <- !app_assoc. reflexivity.
Qed.

Lemma stopListening_owned (w : World) (h : Handle) :
  recognitionRef w = Some h ->
  stopListening w =
  (tt,
   {| isListening := false; isSupported := isSupported w;
      lastCommand := lastCommand w; recognitionRef := None;
      sessions := update h (with_started false) (sessions w);
      trace := trace w ++ [ERefWrite None; ERecStop h; ESetIsListening false;
                           EAnnounce "Voice commands deactivated."] |}).
Proof.
  intros H. unfold stopListening, recognition_stop. run_m. rewrite H. run_m.
  rewrite <- !app_assoc. reflexivity.
Qed.

(** An [end] event of a session the hook does not own: [isListening] is
    cleared and nothing is restarted. *)
Lemma end_of_unowned_session (options : UseVoiceCommandsOptions)
  (w : World) (h : Handle) :
  recognitionRef w <> Some h ->
  deliver options (EvEnd h) w =
  (tt,
   {| isListening := false; isSupported := isSupported w;
      lastCommand := lastCommand w; recognitionRef := recognitionRef w;
      sessions := update h (with_started false) (sessions w);
      trace := trace w ++ [ESetIsListening false] |}).
Proof.
  intros H. unfold deliver, onend. run_m.
  destruct (recognitionRef w) as [k|]; [|reflexivity].
  destruct (Nat.eqb_spec k h) as [->|Hne]; [congruence | reflexivity].
Qed.

(** An [end] event of the owned session: it is started again at once. *)
Lemma end_of_owned_session (options : UseVoiceCommandsOptions)
  (w : World) (h : Handle) (s : Session) :
  recognitionRef w = Some h ->
  nth_error (sessions w) h = Some s ->
  deliver options (EvEnd h) w =
  (tt,
   {| isListening := false; isSupported := isSupported w;
      lastCommand := lastCommand w; recognitionRef := Some h;
      sessions := update h (with_started true) (sessions w);
      trace := trace w ++ [ESetIsListening false; ERecStart h] |}).
Proof.
  intros Hr Hs.
  unfold deliver, onend, recognition_start. run_m.
  rewrite Hr, Nat.eqb_refl. run_m.
  rewrite nth_error_update_same, Hs. run_m.
  rewrite <- app_assoc. f_equal. f_equal.
  clear Hr. revert h Hs. generalize (sessions w) as l.
  induction l as [|a l IH]; intros [|h] Hs; simpl in *; try discriminate; auto.
  now rewrite IH.
Qed.

Lemma startListening_rejected (w : World) :
  isSupported w = false ->
  startListening w =
  (tt, extend w [ESpeak "Voice commands are not supported in this browser."]).
Proof.
  intros H. unfold startListening. run_m. now rewrite H.
Qed.

Lemma stopListening_unowned (w : World) :
  recognitionRef w = None -> stopListening w = (tt, w).
Proof.
  intros H. unfold stopListening, bind, get. now rewrite H.
Qed.

(** C5. [startListening] in an unsupported environment changes no state
    ([isListening], the session handle and the heap keep their values) and
    its only effect is one spoken unsupported-environment notice. *)
Theorem startListening_unsupported (w : World) :
  isSupported w = false ->
  startListening w =
  (tt, extend w [ESpeak "Voice commands are not supported in this browser."]) /\
  isListening (exec startListening w) = isListening w /\
  recognitionRef (exec startListening w) = recognitionRef w /\
  sessions (exec startListening w) = sessions w /\
  filter audible (trace (exec startListening w)) =
    filter audible (trace w) ++
    [ESpeak "Voice commands are not supported in this browser."].
Proof.
  intros H. unfold exec. rewrite (startListening_rejected w H). simpl.
  repeat split. now rewrite filter_app.
Qed.

Lemma startListening_unsupported_witness :
  startListening initial =
  (tt,
   {| isListening := false; isSupported := false; lastCommand := None;
      recognitionRef := None; sessions := [];
      trace := [ESpeak "Voice commands are not supported in this browser."] |}).
Proof.
  apply (proj1 (startListening_unsupported initial eq_refl)).
Defined.

(** C6. [stopListening] on an owned session clears the handle, then tells
    the engine to stop, then sets the state to idle and makes one
    deactivation announcement; an [end] event of that session arriving
    afterwards only clears [isListening] again: nothing is restarted. *)
Theorem stopListening_then_late_end (options : UseVoiceCommandsOptions)
  (w : World) (h : Handle) :
  recognitionRef w = Some h ->
  let w1 := exec stopListening w in
  let w2 := exec (deliver options (EvEnd h)) w1 in
  trace w1 = trace w ++ [ERefWrite None; ERecStop h; ESetIsListening false;
                         EAnnounce "Voice commands deactivated."] /\
  recognitionRef w1 = None /\ isListening w1 = false /\ ~ is_running h w1 /\
  trace w2 = trace w1 ++ [ESetIsListening false] /\
  recognitionRef w2 = None /\ isListening w2 = false /\ ~ is_running h w2.
Proof.
  intros H. cbv zeta. unfold exec.
  rewrite (stopListening_owned w h H). cbn [snd].
  rewrite end_of_unowned_session by (simpl; discriminate). simpl.
  repeat split; intros [s [Hn Hs]]; simpl in Hn;
    apply stopped_not_running in Hn; congruence.
Qed.

Lemma stopListening_then_late_end_witness :
  let w1 := exec stopListening listening_world in
  let w2 := exec (deliver no_options (EvEnd 0)) w1 in
  trace w1 = trace listening_world ++
               [ERefWrite None; ERecStop 0; ESetIsListening false;
                EAnnounce "Voice commands deactivated."] /\
  recognitionRef w1 = None /\ isListening w1 = false /\ ~ is_running 0 w1 /\
  trace w2 = trace w1 ++ [ESetIsListening false] /\
  recognitionRef w2 = None /\ isListening w2 = false /\ ~ is_running 0 w2.
Proof.
  apply (stopListening_then_late_end no_options listening_world 0).
  reflexivity.
Defined.

(** C7. An error event of kind not-allowed sets [isListening] to false
    whatever it was and speaks one permission-denied notice; the handle
    and the recognition objects are left as they were. *)
Theorem onerror_not_allowed (options : UseVoiceCommandsOptions)
  (h : Handle) (w : World) :
  deliver options (EvError h "not-allowed") w =
  (tt,
   {| isListening := false; isSupported := isSupported w;
      lastCommand := lastCommand w; recognitionRef := recognitionRef w;
      sessions := sessions w;
      trace := trace w ++
        [EConsoleError ["Speech recognition error:"; "not-allowed"];
         ESpeak "Microphone permission denied. Please allow microphone access.";
         ESetIsListening false] |}).
Proof.
  unfold deliver, onerror. run_m. now rewrite <- !app_assoc.
Qed.

(** C8. An error event of kind no-speech or aborted leaves [isListening]
    (and all other state) as it is; its only effect is a console line, so
    nothing is announced or spoken. *)
Theorem onerror_benign (options : UseVoiceCommandsOptions)
  (h : Handle) (error : string) (w : World) :
  error = "no-speech" \/ error = "aborted" ->
  deliver options (EvError h error) w =
    (tt, extend w [EConsoleError ["Speech recognition error:"; error]]) /\
  isListening (exec (deliver options (EvError h error)) w) = isListening w /\
  filter audible (trace (exec (deliver options (EvError h error)) w)) =
    filter audible (trace w).
Proof.
  intros H.
  assert (E : deliver options (EvError h error) w =
              (tt, extend w [EConsoleError ["Speech recognition error:"; error]]))
    by (destruct H as [-> | ->]; reflexivity).
  unfold exec. rewrite E. simpl. repeat split.
  rewrite filter_app. simpl. apply app_nil_r.
Qed.

Lemma onerror_benign_witness :
  (deliver no_options (EvError 0 "no-speech") listening_world =
     (tt, extend listening_world
            [EConsoleError ["Speech recognition error:"; "no-speech"]]) /\
   isListening (exec (deliver no_options (EvError 0 "no-speech")) listening_world)
     = true /\
   filter audible
     (trace (exec (deliver no_options (EvError 0 "no-speech")) listening_world)) =
     filter audible (trace listening_world)) /\
  isListening (exec (deliver no_options (EvError 0 "aborted")) listening_world)
    = true.
Proof.
  split.
  - apply (onerror_benign no_options 0 "no-speech" listening_world). now left.
  - apply (onerror_benign no_options 0 "aborted" listening_world). now right.
Defined.

(** C9. [stopListening] without an owned session handle does nothing: the
    world, trace included, is returned as it was. *)
Theorem stopListening_idle_noop (w : World) :
  recognitionRef w = None -> stopListening w = (tt, w).
Proof.
  intros H. unfold stopListening, bind, get.
  rewrite H. reflexivity.
Qed.

Lemma stopListening_idle_noop_witness :
  stopListening (exec stopListening listening_world) =
  (tt, exec stopListening listening_world).
Proof.
  apply (stopListening_idle_noop (exec stopListening listening_world)).
  reflexivity.
Defined.

(** Stopping twice is stopping once. *)
Lemma stopListening_idempotent (w : World) :
  exec stopListening (exec stopListening w) = exec stopListening w.
Proof.
  unfold exec at 1. rewrite stopListening_unowned; [reflexivity|].
  destruct (recognitionRef w) as [h|] eqn:H.
  - unfold exec. now rewrite (stopListening_owned w h H).
  - unfold exec. now rewrite stopListening_unowned.
Qed.

(* ================================================================= *)
(** ** Ownership of running sessions *)

Lemma option_eq_dec_handle (a b : option Handle) : {a = b} + {a <> b}.
Proof. decide equality. apply Nat.eq_dec. Qed.

Lemma initial_only_owned : only_owned_runs mounted.
Proof. intros h [s [Hn _]]. destruct h; discriminate. Qed.

Lemma stopListening_only_owned (w : World) :
  only_owned_runs w -> only_owned_runs (exec stopListening w).
Proof.
  intros Inv. destruct (recognitionRef w) as [r|] eqn:Hr.
  - unfold exec. rewrite (stopListening_owned w r Hr). simpl.
    intros h [s [Hn Hs]]. simpl in *. exfalso.
    destruct (Nat.eq_dec r h) as [->|Hne].
    + apply stopped_not_running in Hn. congruence.
    + rewrite nth_error_update_other in Hn by exact Hne.
      assert (recognitionRef w = Some h) by (apply Inv; now exists s).
      congruence.
  - unfold exec. now rewrite stopListening_unowned.
Qed.

Lemma startListening_only_owned (w : World) :
  recognitionRef w = None ->
  only_owned_runs w -> only_owned_runs (exec startListening w).
Proof.
  intros Hr Inv. destruct (isSupported w) eqn:Hs.
  - unfold exec. rewrite (startListening_supported w Hs). simpl.
    intros h [s [Hn Hst]]. simpl in *.
    destruct (Nat.lt_ge_cases h (length (sessions w))) as [Hlt|Hge].
    + rewrite nth_error_app1 in Hn by exact Hlt.
      assert (recognitionRef w = Some h) by (apply Inv; now exists s).
      congruence.
    + destruct (Nat.eq_dec h (length (sessions w))) as [->|Hne];
        [reflexivity|].
      assert (Hnone : nth_error (sessions w ++
                [{| continuous := true; interimResults := false;
                    lang := "en-US"; started := true |}]) h = None).
      { apply nth_error_None. rewrite length_app. simpl. lia. }
      congruence.
  - unfold exec. rewrite (startListening_rejected w Hs). exact Inv.
Qed.

Lemma end_only_owned (options : UseVoiceCommandsOptions) (w : World)
  (h : Handle) :
  only_owned_runs w -> only_owned_runs (exec (deliver options (EvEnd h)) w).
Proof.
  intros Inv k [s [Hn Hs]].
  destruct (option_eq_dec_handle (recognitionRef w) (Some h)) as [Hr|Hr].
  - destruct (nth_error (sessions w) h) as [s0|] eqn:Hh.
    + unfold exec in *. rewrite (end_of_owned_session options w h s0 Hr Hh) in *.
      simpl in *. destruct (Nat.eq_dec h k) as [->|Hne]; [reflexivity|].
      rewrite nth_error_update_other in Hn by exact Hne.
      rewrite <- Hr. apply Inv. now exists s.
    + exfalso. revert Hn Hs. unfold exec, deliver, onend, recognition_start.
      run_m. rewrite Hr, Nat.eqb_refl. run_m.
      rewrite nth_error_update_same, Hh. simpl.
      intros Hn Hs. destruct (Nat.eq_dec h k) as [->|Hne].
      * rewrite nth_error_update_same, Hh in Hn. discriminate.
      * rewrite nth_error_update_other in Hn by exact Hne.
        assert (recognitionRef w = Some k) by (apply Inv; now exists s).
        congruence.
  - unfold exec in *. rewrite (end_of_unowned_session options w h Hr) in *.
    simpl in *. destruct (Nat.eq_dec h k) as [->|Hne].
    + apply stopped_not_running in Hn. congruence.
    + rewrite nth_error_update_other in Hn by exact Hne.
      apply Inv. now exists s.
Qed.

Lemma only_owned_same (w w' : World) :
  sessions w' = sessions w -> recognitionRef w' = recognitionRef w ->
  only_owned_runs w -> only_owned_runs w'.
Proof.
  intros Hs Hr Inv h [s [Hn Hst]]. rewrite Hr. apply Inv.
  exists s. now rewrite <- Hs.
Qed.

Lemma onerror_keeps_sessions (error : string) (w : World) :
  sessions (exec (onerror error) w) = sessions w /\
  recognitionRef (exec (onerror error) w) = recognitionRef w.
Proof.
  unfold exec, onerror. run_m.
  destruct (error =? "not-allowed")%string; simpl; [now split|].
  destruct (negb (error =? "no-speech")%string && negb (error =? "aborted")%string);
    now split.
Qed.

Lemma step_only_owned (options : UseVoiceCommandsOptions) (a : Action)
  (w : World) :
  guarded w a -> only_owned_runs w -> only_owned_runs (exec (step options a) w).
Proof.
  destruct a as [| | |[h|h|h event|h error]]; simpl; intros G Inv.
  - now apply startListening_only_owned.
  - now apply stopListening_only_owned.
  - unfold exec, toggleListening, bind, get.
    destruct (isListening w) eqn:Hl.
    + now apply stopListening_only_owned.
    + destruct G as [G|G]; [discriminate|].
      now apply startListening_only_owned.
  - revert Inv. now apply only_owned_same.
  - now apply (end_only_owned options).
  - destruct G.
  - revert Inv. apply only_owned_same; apply onerror_keeps_sessions.
Qed.

(** As long as no session is started while another is still owned, the
    engine runs no session of the hook but the owned one. *)
Lemma run_only_owned (options : UseVoiceCommandsOptions) (l : list Action)
  (w : World) :
  all_guarded options l w -> only_owned_runs w ->
  only_owned_runs (run options l w).
Proof.
  revert w; induction l as [|a l IH]; intros w; simpl; [auto|].
  intros [G Gs] Inv. apply IH; [exact Gs|]. now apply step_only_owned.
Qed.

(** The sibling paths release the handle only with the session stopped. *)
Lemma cleanup_stops_owned (w : World) (h : Handle) :
  recognitionRef w = Some h ->
  recognitionRef (exec cleanup w) = None /\ ~ is_running h (exec cleanup w).
Proof.
  intros H. unfold exec, cleanup, recognition_stop. run_m. rewrite H. run_m.
  split; [reflexivity|]. intros [s [Hn Hs]]. simpl in Hn.
  apply stopped_not_running in Hn. congruence.
Qed.

(** [startListening] on a hook that owns a running session leaves that
    session running and takes a second one. *)
Lemma startListening_orphans (w : World) (h : Handle) :
  isSupported w = true -> is_running h w ->
  let w' := exec startListening w in
  is_running h w' /\ is_running (length (sessions w)) w' /\
  h <> length (sessions w) /\ recognitionRef w' = Some (length (sessions w)).
Proof.
  intros Hs [s [Hn Hst]]. cbv zeta. unfold exec.
  rewrite (startListening_supported w Hs). simpl.
  assert (Hlt : h < length (sessions w))
    by (apply nth_error_Some; congruence).
  repeat split.
  - exists s. simpl. now rewrite nth_error_app1.
  - eexists. simpl. rewrite nth_error_app_last. split; reflexivity.
  - lia.
Qed.

(** C2 (the code departs from the claim). On a mounted hook in a supporting
    browser, two calls of [startListening], or two of [toggleListening]
    before the engine's [start] event arrives, leave the sessions 0 and 1
    both running: the second call overwrites the handle of session 0
    without stopping it. *)
Theorem startListening_twice_two_sessions (options : UseVoiceCommandsOptions) :
  active_sessions (run options [AStart; AStart] mounted) = [0; 1] /\
  recognitionRef (run options [AStart; AStart] mounted) = Some 1 /\
  active_sessions (run options [AToggle; AToggle] mounted) = [0; 1] /\
  ~ only_owned_runs (run options [AStart; AStart] mounted).
Proof.
  repeat split. intros Inv.
  assert (H : recognitionRef (run options [AStart; AStart] mounted) = Some 0).
  { apply Inv. eexists. split; reflexivity. }
  discriminate.
Qed.

(* ================================================================= *)
(** ** The Scan page *)

(** C10. The page's add callback: without a current product it speaks
    "No product selected. Please scan a product first." and dispatches
    nothing; with one it speaks "Adding item to cart." and then dispatches
    one keydown event whose key is "a". *)
Theorem Scan_onAdd_spec (state : AppState) (w : World) :
  (currentProduct state = None ->
   Scan.onAdd state w =
   (tt, extend w [ESpeak "No product selected. Please scan a product first."])) /\
  (forall p : Product, currentProduct state = Some p ->
   Scan.onAdd state w =
   (tt, extend w [ESpeak "Adding item to cart.";
                  EDispatch {| ev_type := "keydown"; key := "a"; code := EmptyString;
                               ctrlKey := false; shiftKey := false |}])).
Proof.
  unfold Scan.onAdd. split.
  - intros ->. reflexivity.
  - intros p ->. run_m. unfold extend. simpl. now rewrite <- app_assoc.
Qed.

Lemma Scan_onAdd_spec_witness :
  Scan.onAdd {| currentProduct := None; detections := [] |} initial =
    (tt, extend initial
           [ESpeak "No product selected. Please scan a product first."]) /\
  filter is_dispatch
    (trace (exec (Scan.onAdd
       {| currentProduct :=
            Some {| productId := "PRD001"; name := "Milk"; variants := [] |};
          detections := [] |}) initial)) =
    [EDispatch (keydown "a" EmptyString false false)].
Proof.
  split.
  - apply (proj1 (Scan_onAdd_spec
                    {| currentProduct := None; detections := [] |} initial)).
    reflexivity.
  - unfold exec.
    rewrite (proj2 (Scan_onAdd_spec
      {| currentProduct :=
           Some {| productId := "PRD001"; name := "Milk"; variants := [] |};
         detections := [] |} initial)
      {| productId := "PRD001"; name := "Milk"; variants := [] |} eq_refl).
    reflexivity.
Defined.

(** Saying "add" on the Scan page with a product selected: the hook
    announces the command, then the page speaks and synthesizes the key. *)
Lemma voice_add_on_Scan (p : Product) (ds : list Detection) :
  trace (exec (processCommand
                 (Scan.options {| currentProduct := Some p; detections := ds |})
                 "Add to cart") initial) =
  [EConsoleLog ["Voice command received:"; "add to cart"];
   ESetLastCommand add; EAnnounce "Command recognized: add";
   ESpeak "Adding item to cart."; EDispatch (keydown "a" EmptyString false false)].
Proof. reflexivity. Qed.

(* ================================================================= *)
(** ** Normalization of transcripts *)

Lemma lower_ascii_idem (c : ascii) : lower_ascii (lower_ascii c) = lower_ascii c.
Proof. destruct c as [[] [] [] [] [] [] [] []]; reflexivity. Qed.

Lemma is_space_lower (c : ascii) : is_space (lower_ascii c) = is_space c.
Proof. destruct c as [[] [] [] [] [] [] [] []]; reflexivity. Qed.

Lemma toLowerCase_idem (s : string) : toLowerCase (toLowerCase s) = toLowerCase s.
Proof.
  induction s as [|c s IH]; simpl; [reflexivity|].
  now rewrite lower_ascii_idem, IH.
Qed.

Lemma toLowerCase_trimStart (s : string) :
  toLowerCase (trimStart s) = trimStart (toLowerCase s).
Proof.
  induction s as [|c s IH]; simpl; [reflexivity|].
  rewrite is_space_lower. destruct (is_space c); [exact IH | reflexivity].
Qed.

Lemma toLowerCase_trimEnd (s : string) :
  toLowerCase (trimEnd s) = trimEnd (toLowerCase s).
Proof.
  induction s as [|c s IH]; simpl; [reflexivity|].
  rewrite <- IH, is_space_lower.
  destruct (trimEnd s); simpl; [destruct (is_space c)|]; reflexivity.
Qed.

Lemma trimStart_idem (s : string) : trimStart (trimStart s) = trimStart s.
Proof.
  induction s as [|c s IH]; simpl; [reflexivity|].
  destruct (is_space c) eqn:Hc; [exact IH | simpl; now rewrite Hc].
Qed.

Lemma trimEnd_idem (s : string) : trimEnd (trimEnd s) = trimEnd s.
Proof.
  induction s as [|c s IH]; simpl; [reflexivity|].
  destruct (trimEnd s) as [|d r] eqn:Hr.
  - destruct (is_space c) eqn:Hc; simpl; [reflexivity | now rewrite Hc].
  - change (trimEnd (String c (String d r))) with
      (match trimEnd (String d r) with
       | EmptyString => if is_space c then EmptyString else String c EmptyString
       | x => String c x
       end).
    now rewrite IH.
Qed.

Lemma trimStart_trimEnd (s : string) :
  trimStart (trimEnd s) = trimEnd (trimStart s).
Proof.
  induction s as [|c s IH]; [reflexivity|].
  cbn [trimStart]. destruct (is_space c) eqn:Hc.
  - rewrite <- IH. cbn [trimEnd].
    destruct (trimEnd s) as [|d r]; [now rewrite Hc|].
    cbn [trimStart]. now rewrite Hc.
  - cbn [trimEnd]. destruct (trimEnd s) as [|d r];
      rewrite ?Hc; cbn [trimStart]; now rewrite Hc.
Qed.

Lemma trim_idem (s : string) : trim (trim s) = trim s.
Proof.
  unfold trim. now rewrite <- trimStart_trimEnd, trimEnd_idem, trimStart_trimEnd,
    trimStart_idem.
Qed.

Lemma toLowerCase_trim (s : string) : toLowerCase (trim s) = trim (toLowerCase s).
Proof. unfold trim. now rewrite toLowerCase_trimEnd, toLowerCase_trimStart. Qed.

(** Normalizing twice is normalizing once. *)
Lemma normalize_idem (t : string) :
  trim (toLowerCase (trim (toLowerCase t))) = trim (toLowerCase t).
Proof. now rewrite toLowerCase_trim, toLowerCase_idem, trim_idem. Qed.

(** X1. Classification ignores letter case and surrounding white space:
    the transcript, its lowercased form, its trimmed form and its
    normalized form (the one written to the console) all give the same
    command. *)
Theorem processCommand_normalized (options : UseVoiceCommandsOptions)
  (t : string) (w w' : World) :
  result (processCommand options (toLowerCase t)) w' =
    result (processCommand options t) w /\
  result (processCommand options (trim t)) w' =
    result (processCommand options t) w /\
  result (processCommand options (trim (toLowerCase t))) w' =
    result (processCommand options t) w.
Proof.
  rewrite !result_first_match. repeat split.
  - now rewrite toLowerCase_idem.
  - now rewrite toLowerCase_trim, trim_idem.
  - now rewrite normalize_idem.
Qed.

(** X2. The command [processCommand] returns depends on the transcript
    only: not on the callbacks registered, nor on the state of the hook. *)
Theorem processCommand_result_independent (o1 o2 : UseVoiceCommandsOptions)
  (t : string) (w1 w2 : World) :
  result (processCommand o1 t) w1 = result (processCommand o2 t) w2.
Proof.
  rewrite !result_first_match. unfold first_match, commands.
  cbn [find]. unfold matches. cbn [patterns].
  repeat match goal with
         | |- context [if existsb ?f ?l then _ else _] => destruct (existsb f l)
         end; reflexivity.
Qed.

(* ================================================================= *)
(** ** Redundant phrases *)

Lemma Substring_trans (p q s : string) :
  Substring p q -> Substring q s -> Substring p s.
Proof.
  intros [a [b ->]] [c [d ->]]. exists (c ++ a)%string, (b ++ d)%string.
  clear. induction c as [|x c IH]; simpl.
  - induction a as [|y a IHa]; simpl.
    + induction p as [|z p IHp]; simpl; [reflexivity | now rewrite IHp].
    + now rewrite IHa.
  - now rewrite IH.
Qed.

Lemma includes_longer (s p q : string) :
  Substring p q -> includes s p = false -> includes s q = false.
Proof.
  intros Hpq Hp. apply not_true_iff_false. intros Hq.
  apply includes_iff in Hq.
  assert (includes s p = true)
    by (apply includes_iff; exact (Substring_trans _ _ _ Hpq Hq)).
  congruence.
Qed.

Lemma matches_essential (options : UseVoiceCommandsOptions) (lt : string)
  (e : CommandEntry) :
  In e (commands options) ->
  matches lt e = existsb (includes lt) (essential_patterns (command e)).
Proof.
  unfold commands, matches. simpl.
  intros H. repeat (destruct H as [<-|H]); simpl; try reflexivity;
    try destruct H.
  - destruct (includes lt "add") eqn:E; [reflexivity|].
    rewrite (includes_longer lt "add" "add to cart")
      by (try exact E; now exists EmptyString, " to cart").
    rewrite (includes_longer lt "add" "add item")
      by (try exact E; now exists EmptyString, " item").
    reflexivity.
  - destruct (includes lt "cart") eqn:E; [reflexivity|].
    rewrite (includes_longer lt "cart" "go to cart")
      by (try exact E; now exists "go to ", EmptyString).
    rewrite (includes_longer lt "cart" "view cart")
      by (try exact E; now exists "view ", EmptyString).
    rewrite (includes_longer lt "cart" "shopping cart")
      by (try exact E; now exists "shopping ", EmptyString).
    rewrite (includes_longer lt "cart" "my cart")
      by (try exact E; now exists "my ", EmptyString).
    reflexivity.
  - destruct (includes lt "help"); [reflexivity|].
    destruct (includes lt "assist") eqn:E; [reflexivity|].
    rewrite (includes_longer lt "assist" "assistance")
      by (try exact E; now exists EmptyString, "ance").
    reflexivity.
  - destruct (includes lt "start") eqn:E; [reflexivity|].
    rewrite (includes_longer lt "start" "start camera")
      by (try exact E; now exists EmptyString, " camera").
    reflexivity.
  - destruct (includes lt "stop") eqn:E; [reflexivity|].
    rewrite (includes_longer lt "stop" "stop camera")
      by (try exact E; now exists EmptyString, " camera").
    reflexivity.
Qed.

Lemma find_ext_in {A : Type} (f g : A -> bool) (l : list A) :
  (forall x, In x l -> f x = g x) -> find f l = find g l.
Proof.
  induction l as [|a l IH]; intros H; simpl; [reflexivity|].
  rewrite (H a) by now left. destruct (g a); [reflexivity|].
  apply IH. intros x Hx. apply H. now right.
Qed.

(** X3. Nine phrases of the table are dead weight: "add to cart",
    "add item", "go to cart", "view cart", "shopping cart", "my cart",
    "assistance", "start camera" and "stop camera" each contain a shorter
    phrase of the same command, so classifying with the remaining phrases
    alone gives the same command for every transcript. *)
Theorem processCommand_essential_patterns (options : UseVoiceCommandsOptions)
  (t : string) (w : World) :
  result (processCommand options t) w =
  option_map command
    (find (fun e => existsb (includes (trim (toLowerCase t)))
                      (essential_patterns (command e)))
          (commands options)).
Proof.
  rewrite result_first_match. unfold first_match. f_equal.
  apply find_ext_in. intros e He. now apply (matches_essential options).
Qed.

(* ================================================================= *)
(** ** More of the session lifecycle *)

Lemma filter_audible_app (l l' : list Effect) :
  filter audible l' = [] -> filter audible (l ++ l') = filter audible l.
Proof. intros H. now rewrite filter_app, H, app_nil_r. Qed.

(** Compute the audible part of a trace that ends in known effects. *)
Ltac audible_trace :=
  rewrite <- ?app_assoc; rewrite ?filter_app; simpl; rewrite ?app_nil_r;
  reflexivity.

Lemma onstart_world (w : World) :
  onstart w =
  (tt,
   {| isListening := true; isSupported := isSupported w;
      lastCommand := lastCommand w; recognitionRef := recognitionRef w;
      sessions := sessions w;
      trace := trace w ++
        [ESetIsListening true;
         EAnnounce "Voice commands activated. Say a command like capture, add, or cart."] |}).
Proof. unfold onstart. run_m. now rewrite <- app_assoc. Qed.

(** X5. In a supporting browser [startListening] creates one new
    recognition object, configured for continuous recognition without
    interim results in en-US, starts it and takes it as the owned session;
    the objects that existed are untouched.  It neither sets [isListening]
    nor says anything: both wait for the engine's [start] event. *)
Theorem startListening_creates_session (w : World) :
  isSupported w = true ->
  let n := length (sessions w) in
  let w' := exec startListening w in
  recognitionRef w' = Some n /\
  nth_error (sessions w') n =
    Some {| continuous := true; interimResults := false; lang := "en-US";
            started := true |} /\
  length (sessions w') = S n /\
  (forall h, h < n -> nth_error (sessions w') h = nth_error (sessions w) h) /\
  isListening w' = isListening w /\
  lastCommand w' = lastCommand w /\
  filter audible (trace w') = filter audible (trace w).
Proof.
  intros H. cbv zeta. unfold exec. rewrite (startListening_supported w H).
  simpl. repeat split.
  - apply nth_error_app_last.
  - rewrite length_app. simpl. lia.
  - intros h Hh. now apply nth_error_app1.
  - now apply filter_audible_app.
Qed.

Lemma startListening_creates_session_witness :
  recognitionRef (exec startListening mounted) = Some 0 /\
  nth_error (sessions (exec startListening mounted)) 0 =
    Some {| continuous := true; interimResults := false; lang := "en-US";
            started := true |} /\
  length (sessions (exec startListening mounted)) = 1 /\
  (forall h, h < 0 ->
     nth_error (sessions (exec startListening mounted)) h =
     nth_error (sessions mounted) h) /\
  isListening (exec startListening mounted) = false /\
  lastCommand (exec startListening mounted) = None /\
  filter audible (trace (exec startListening mounted)) = [].
Proof.
  apply (startListening_creates_session mounted). reflexivity.
Defined.

(** X6. Start, the engine's [start] event, then stop: the hook is idle
    again, owns no session, the session it had created is stopped, all
    other recognition objects and [lastCommand] are as before, and the user
    has heard the activation and then the deactivation announcement. *)
Theorem start_stop_round_trip (options : UseVoiceCommandsOptions) (w : World) :
  isSupported w = true ->
  let n := length (sessions w) in
  let w' := run options [AStart; AEngine (EvStart n); AStop] w in
  isListening w' = false /\ recognitionRef w' = None /\
  ~ is_running n w' /\
  (forall h, h <> n -> nth_error (sessions w') h = nth_error (sessions w) h) /\
  lastCommand w' = lastCommand w /\
  filter audible (trace w') =
    filter audible (trace w) ++
    [EAnnounce "Voice commands activated. Say a command like capture, add, or cart.";
     EAnnounce "Voice commands deactivated."].
Proof.
  intros H. cbv zeta. unfold run, exec, step, deliver.
  rewrite (startListening_supported w H). cbn [snd].
  rewrite onstart_world. cbn [snd].
  rewrite (stopListening_owned _ (length (sessions w))) by reflexivity.
  simpl. repeat split.
  - intros [s [Hn Hs]]. simpl in Hn.
    apply stopped_not_running in Hn. congruence.
  - intros h Hh. rewrite nth_error_update_other by congruence.
    destruct (Nat.lt_ge_cases h (length (sessions w))) as [Hlt|Hge].
    + now apply nth_error_app1.
    + transitivity (@None Session).
      * apply nth_error_None. rewrite length_app. simpl. lia.
      * symmetry. now apply nth_error_None.
  - audible_trace.
Qed.

Lemma start_stop_round_trip_witness :
  let w' := run no_options [AStart; AEngine (EvStart 0); AStop] mounted in
  isListening w' = false /\ recognitionRef w' = None /\
  ~ is_running 0 w' /\
  (forall h, h <> 0 -> nth_error (sessions w') h = nth_error (sessions mounted) h) /\
  lastCommand w' = None /\
  filter audible (trace w') =
    [EAnnounce "Voice commands activated. Say a command like capture, add, or cart.";
     EAnnounce "Voice commands deactivated."].
Proof.
  apply (start_stop_round_trip no_options mounted). reflexivity.
Defined.

(** X7. When the owned session ends, the hook starts the same session
    again at once and keeps owning it, silently; [isListening] is false
    until the engine's next [start] event, which sets it and repeats the
    activation announcement. *)
Theorem auto_restart_cycle (options : UseVoiceCommandsOptions) (w : World)
  (h : Handle) (s : Session) :
  recognitionRef w = Some h ->
  nth_error (sessions w) h = Some s ->
  let w1 := exec (deliver options (EvEnd h)) w in
  let w2 := exec (deliver options (EvStart h)) w1 in
  trace w1 = trace w ++ [ESetIsListening false; ERecStart h] /\
  is_running h w1 /\ recognitionRef w1 = Some h /\ isListening w1 = false /\
  is_running h w2 /\ recognitionRef w2 = Some h /\ isListening w2 = true /\
  filter audible (trace w2) =
    filter audible (trace w) ++
    [EAnnounce "Voice commands activated. Say a command like capture, add, or cart."].
Proof.
  intros Hr Hs. cbv zeta. unfold exec.
  rewrite (end_of_owned_session options w h s Hr Hs). cbn [snd].
  unfold deliver. rewrite onstart_world. simpl.
  assert (R : exists s', nth_error (update h (with_started true) (sessions w)) h
                           = Some s' /\ started s' = true).
  { rewrite nth_error_update_same, Hs. simpl. eexists. split; reflexivity. }
  repeat split; try exact R.
  audible_trace.
Qed.

Lemma auto_restart_cycle_witness :
  let w1 := exec (deliver no_options (EvEnd 0)) listening_world in
  let w2 := exec (deliver no_options (EvStart 0)) w1 in
  trace w1 = trace listening_world ++ [ESetIsListening false; ERecStart 0] /\
  is_running 0 w1 /\ recognitionRef w1 = Some 0 /\ isListening w1 = false /\
  is_running 0 w2 /\ recognitionRef w2 = Some 0 /\ isListening w2 = true /\
  filter audible (trace w2) =
    filter audible (trace listening_world) ++
    [EAnnounce "Voice commands activated. Say a command like capture, add, or cart."].
Proof.
  apply (auto_restart_cycle no_options listening_world 0
           {| continuous := true; interimResults := false; lang := "en-US";
              started := true |}); reflexivity.
Defined.

Lemma processCommand_unmatched (options : UseVoiceCommandsOptions)
  (t : string) (w : World) :
  first_match options (trim (toLowerCase t)) = None ->
  processCommand options t w =
  (None,
   extend w
     [EConsoleLog ["Voice command received:"; trim (toLowerCase t)];
      EAnnounce "Command not recognized. Try: capture, add, cart, help."]).
Proof.
  unfold first_match. intros H.
  destruct (find (matches (trim (toLowerCase t))) (commands options)) eqn:Hf;
    [discriminate|].
  unfold processCommand, bind, console_log.
  rewrite emit_extend, loop_none.
  - now rewrite extend_extend.
  - intros e He. exact (find_none _ _ Hf e He).
Qed.

Lemma end_keeps_lastCommand (options : UseVoiceCommandsOptions) (h : Handle)
  (w : World) :
  lastCommand (exec (deliver options (EvEnd h)) w) = lastCommand w /\
  isSupported (exec (deliver options (EvEnd h)) w) = isSupported w.
Proof.
  unfold exec, deliver, onend, recognition_start. run_m.
  destruct (recognitionRef w) as [k|]; [|now split].
  destruct (k =? h); [|now split]. run_m.
  destruct (nth_error (update h (with_started false) (sessions w)) h) as [s|];
    [destruct (started s)|]; now split.
Qed.

Lemma onerror_keeps_lastCommand (error : string) (w : World) :
  lastCommand (exec (onerror error) w) = lastCommand w /\
  isSupported (exec (onerror error) w) = isSupported w.
Proof.
  unfold exec, onerror. run_m.
  destruct (error =? "not-allowed")%string; simpl; [now split|].
  destruct (negb (error =? "no-speech")%string && negb (error =? "aborted")%string);
    now split.
Qed.

Lemma startListening_keeps_lastCommand (w : World) :
  lastCommand (exec startListening w) = lastCommand w /\
  isSupported (exec startListening w) = isSupported w.
Proof.
  unfold exec. destruct (isSupported w) eqn:Hs.
  - rewrite (startListening_supported w Hs). now split.
  - rewrite (startListening_rejected w Hs). now split.
Qed.

Lemma stopListening_keeps_lastCommand (w : World) :
  lastCommand (exec stopListening w) = lastCommand w /\
  isSupported (exec stopListening w) = isSupported w.
Proof.
  unfold exec. destruct (recognitionRef w) as [h|] eqn:Hr.
  - rewrite (stopListening_owned w h Hr). now split.
  - rewrite (stopListening_unowned w Hr). now split.
Qed.

(** X8. [lastCommand] and [isSupported] are changed by nothing but a
    matching final result: every control action and every engine event
    (start, end, error, an interim result, a final result without a trigger
    phrase) leaves both as they were.  In particular [lastCommand] is never
    cleared by stopping or by an error. *)
Theorem lastCommand_only_set_by_match (options : UseVoiceCommandsOptions)
  (a : Action) (w : World) :
  (forall h event, a = AEngine (EvResult h event) -> isFinal event = true ->
     first_match options (trim (toLowerCase (transcript event))) = None) ->
  lastCommand (exec (step options a) w) = lastCommand w /\
  isSupported (exec (step options a) w) = isSupported w.
Proof.
  destruct a as [| | |[h|h|h event|h error]]; intros H; simpl step.
  - apply startListening_keeps_lastCommand.
  - apply stopListening_keeps_lastCommand.
  - unfold exec, toggleListening, bind, get.
    destruct (isListening w).
    + apply stopListening_keeps_lastCommand.
    + apply startListening_keeps_lastCommand.
  - unfold exec, deliver. rewrite onstart_world. now split.
  - apply (end_keeps_lastCommand options).
  - unfold exec, deliver, onresult.
    destruct (isFinal event) eqn:Hf; [|now split].
    unfold bind. rewrite processCommand_unmatched by exact (H h event eq_refl Hf).
    now split.
  - apply onerror_keeps_lastCommand.
Qed.

Lemma lastCommand_only_set_by_match_witness :
  lastCommand
    (exec (step no_options
             (AEngine (EvResult 0 {| isFinal := true; transcript := "good morning" |})))
       (exec (processCommand no_options "undo that") listening_world))
  = Some undo /\
  isSupported
    (exec (step no_options
             (AEngine (EvResult 0 {| isFinal := true; transcript := "good morning" |})))
       (exec (processCommand no_options "undo that") listening_world))
  = true.
Proof.
  apply (lastCommand_only_set_by_match no_options
           (AEngine (EvResult 0 {| isFinal := true; transcript := "good morning" |}))
           (exec (processCommand no_options "undo that") listening_world)).
  intros h event [= _ <-] _. reflexivity.
Defined.

(** X9. An error event of any kind other than not-allowed, no-speech and
    aborted is announced as "Voice error: <kind>" and changes no state:
    [isListening] and the owned session stay as they are. *)
Theorem onerror_other (options : UseVoiceCommandsOptions) (h : Handle)
  (error : string) (w : World) :
  error <> "not-allowed" -> error <> "no-speech" -> error <> "aborted" ->
  deliver options (EvError h error) w =
  (tt,
   extend w [EConsoleError ["Speech recognition error:"; error];
             EAnnounce ("Voice error: " ++ error)%string]).
Proof.
  intros H1 H2 H3. unfold deliver, onerror. run_m.
  apply String.eqb_neq in H1, H2, H3. rewrite H1, H2, H3. simpl.
  unfold extend. now rewrite <- app_assoc.
Qed.

Lemma onerror_other_witness :
  deliver no_options (EvError 0 "network") listening_world =
  (tt,
   extend listening_world
     [EConsoleError ["Speech recognition error:"; "network"];
      EAnnounce "Voice error: network"]).
Proof.
  apply (onerror_other no_options 0 "network" listening_world); discriminate.
Defined.

(** X10. A permission-denied error does not release the session: the
    handle is kept, so when the engine then ends that session the hook
    starts it again, with [isListening] false. *)
Theorem not_allowed_then_end_restarts (options : UseVoiceCommandsOptions)
  (w : World) (h : Handle) (s : Session) :
  recognitionRef w = Some h ->
  nth_error (sessions w) h = Some s ->
  let w' := run options [AEngine (EvError h "not-allowed"); AEngine (EvEnd h)] w in
  trace w' = trace w ++
    [EConsoleError ["Speech recognition error:"; "not-allowed"];
     ESpeak "Microphone permission denied. Please allow microphone access.";
     ESetIsListening false; ESetIsListening false; ERecStart h] /\
  is_running h w' /\ recognitionRef w' = Some h /\ isListening w' = false.
Proof.
  intros Hr Hs. cbv zeta. unfold run, exec, step.
  assert (E : deliver options (EvError h "not-allowed") w =
              (tt,
               {| isListening := false; isSupported := isSupported w;
                  lastCommand := lastCommand w; recognitionRef := recognitionRef w;
                  sessions := sessions w;
                  trace := trace w ++
                    [EConsoleError ["Speech recognition error:"; "not-allowed"];
                     ESpeak "Microphone permission denied. Please allow microphone access.";
                     ESetIsListening false] |})).
  { unfold deliver, onerror. run_m. now rewrite <- !app_assoc. }
  rewrite E. cbn [snd].
  rewrite (end_of_owned_session options _ h s) by assumption.
  simpl. repeat split.
  - now rewrite <- app_assoc.
  - exists (with_started true s). simpl.
    rewrite nth_error_update_same, Hs. split; reflexivity.
Qed.

Lemma not_allowed_then_end_restarts_witness :
  let w' := run no_options
              [AEngine (EvError 0 "not-allowed"); AEngine (EvEnd 0)]
              listening_world in
  trace w' = trace listening_world ++
    [EConsoleError ["Speech recognition error:"; "not-allowed"];
     ESpeak "Microphone permission denied. Please allow microphone access.";
     ESetIsListening false; ESetIsListening false; ERecStart 0] /\
  is_running 0 w' /\ recognitionRef w' = Some 0 /\ isListening w' = false.
Proof.
  apply (not_allowed_then_end_restarts no_options listening_world 0
           {| continuous := true; interimResults := false; lang := "en-US";
              started := true |}); reflexivity.
Defined.

(** X11. Unmounting a hook that owns a session stops the session and then
    releases the handle, without any announcement and without touching
    [isListening]; an [end] event of that session arriving afterwards
    restarts nothing and says nothing. *)
Theorem cleanup_owned (options : UseVoiceCommandsOptions) (w : World)
  (h : Handle) :
  recognitionRef w = Some h ->
  let w1 := exec cleanup w in
  let w2 := exec (deliver options (EvEnd h)) w1 in
  trace w1 = trace w ++ [ERecStop h; ERefWrite None] /\
  recognitionRef w1 = None /\ ~ is_running h w1 /\
  isListening w1 = isListening w /\
  trace w2 = trace w1 ++ [ESetIsListening false] /\
  recognitionRef w2 = None /\ ~ is_running h w2.
Proof.
  intros H. cbv zeta.
  assert (E : cleanup w =
              (tt,
               {| isListening := isListening w; isSupported := isSupported w;
                  lastCommand := lastCommand w; recognitionRef := None;
                  sessions := update h (with_started false) (sessions w);
                  trace := trace w ++ [ERecStop h; ERefWrite None] |})).
  { unfold cleanup, recognition_stop. run_m. rewrite H. run_m.
    now rewrite <- app_assoc. }
  unfold exec. rewrite E. cbn [snd].
  rewrite end_of_unowned_session by (simpl; discriminate). simpl.
  repeat split; intros [s [Hn Hs]]; simpl in Hn;
    apply stopped_not_running in Hn; congruence.
Qed.

Lemma cleanup_owned_witness :
  let w1 := exec cleanup listening_world in
  let w2 := exec (deliver no_options (EvEnd 0)) w1 in
  trace w1 = trace listening_world ++ [ERecStop 0; ERefWrite None] /\
  recognitionRef w1 = None /\ ~ is_running 0 w1 /\
  isListening w1 = true /\
  trace w2 = trace w1 ++ [ESetIsListening false] /\
  recognitionRef w2 = None /\ ~ is_running 0 w2.
Proof.
  apply (cleanup_owned no_options listening_world 0). reflexivity.
Defined.

(** X12. From a freshly mounted hook, every sequence of control actions
    and engine start, end and error events in which a session is started
    only while none is owned keeps at most one session running, and that
    session is the owned one. *)
Theorem guarded_runs_one_session (options : UseVoiceCommandsOptions)
  (l : list Action) :
  all_guarded options l mounted ->
  forall h k : Handle,
    In h (active_sessions (run options l mounted)) ->
    In k (active_sessions (run options l mounted)) ->
    h = k /\ recognitionRef (run options l mounted) = Some h.
Proof.
  intros G h k Hh Hk.
  assert (Inv : only_owned_runs (run options l mounted))
    by (apply run_only_owned; [exact G | exact initial_only_owned]).
  apply active_sessions_spec in Hh, Hk.
  apply Inv in Hh, Hk. split; congruence.
Qed.

Lemma guarded_runs_one_session_witness :
  1 = 1 /\
  recognitionRef
    (run no_options
       [AStart; AEngine (EvStart 0); AEngine (EvEnd 0); AStop; AToggle]
       mounted) = Some 1.
Proof.
  apply (guarded_runs_one_session no_options
           [AStart; AEngine (EvStart 0); AEngine (EvEnd 0); AStop; AToggle]).
  - simpl. repeat split; auto.
  - simpl. now left.
  - simpl. now left.
Defined.

(** X13. An [end] event of a session that is not the owned one still sets
    [isListening] to false, although the owned session keeps running and
    stays owned: the flag can say idle while the hook is listening. *)
Theorem stale_end_clears_isListening (options : UseVoiceCommandsOptions)
  (w : World) (h k : Handle) :
  recognitionRef w = Some k -> h <> k -> is_running k w ->
  let w' := exec (deliver options (EvEnd h)) w in
  isListening w' = false /\ is_running k w' /\ recognitionRef w' = Some k /\
  trace w' = trace w ++ [ESetIsListening false].
Proof.
  intros Hr Hne [s [Hn Hs]]. cbv zeta. unfold exec.
  rewrite end_of_unowned_session by congruence. simpl.
  repeat split; auto.
  exists s. simpl. now rewrite nth_error_update_other.
Qed.

Lemma stale_end_clears_isListening_witness :
  let w := run no_options
             [AStart; AEngine (EvStart 0); AStop; AStart; AEngine (EvStart 1)]
             mounted in
  let w' := exec (deliver no_options (EvEnd 0)) w in
  isListening w' = false /\ is_running 1 w' /\ recognitionRef w' = Some 1 /\
  trace w' = trace w ++ [ESetIsListening false].
Proof.
  apply (stale_end_clears_isListening no_options
           (run no_options
              [AStart; AEngine (EvStart 0); AStop; AStart; AEngine (EvStart 1)]
              mounted) 0 1).
  - reflexivity.
  - discriminate.
  - eexists. split; reflexivity.
Defined.

Lemma extend_nil (w : World) : extend w [] = w.
Proof. destruct w. unfold extend. simpl. now rewrite app_nil_r. Qed.

(** X14. Where speech recognition is unsupported and no session is owned,
    no sequence of start, stop and toggle calls changes any state or creates
    a recognition object: all it does is speak the unsupported notice, once
    per call that tries to start. *)
Theorem unsupported_controls_inert (options : UseVoiceCommandsOptions)
  (l : list Action) (w : World) :
  isSupported w = false -> recognitionRef w = None ->
  Forall is_control l ->
  exists n : nat,
    n <= length l /\
    run options l w =
    extend w (repeat (ESpeak "Voice commands are not supported in this browser.") n).
Proof.
  revert w; induction l as [|a l IH]; intros w Hs Hr Hl.
  - exists 0. split; [reflexivity|]. simpl. now rewrite extend_nil.
  - inversion Hl as [|a' l' Ha Hl']; subst.
    assert (E : exec (step options a) w = w \/
                exec (step options a) w =
                extend w [ESpeak "Voice commands are not supported in this browser."]).
    { destruct a as [| | |ev]; simpl in Ha; [| | |destruct Ha].
      - right. unfold exec. simpl. now rewrite (startListening_rejected w Hs).
      - left. unfold exec. simpl. now rewrite (stopListening_unowned w Hr).
      - unfold exec. simpl. unfold toggleListening, bind, get.
        destruct (isListening w).
        + left. now rewrite (stopListening_unowned w Hr).
        + right. now rewrite (startListening_rejected w Hs). }
    simpl run. destruct E as [-> | ->].
    + destruct (IH w Hs Hr Hl') as [n [Hn ->]]. exists n. split; [simpl; lia|].
      reflexivity.
    + destruct (IH (extend w [ESpeak "Voice commands are not supported in this browser."])
                  Hs Hr Hl') as [n [Hn ->]].
      exists (S n). split; [simpl; lia|]. now rewrite extend_extend.
Qed.

Lemma unsupported_controls_inert_witness :
  exists n : nat,
    n <= 4 /\
    run no_options [AToggle; AStop; AStart; AToggle] initial =
    extend initial
      (repeat (ESpeak "Voice commands are not supported in this browser.") n).
Proof.
  apply (unsupported_controls_inert no_options
           [AToggle; AStop; AStart; AToggle] initial);
    [reflexivity | reflexivity | repeat constructor].
Defined.

(* ================================================================= *)
(** ** The hook on the Scan page *)

Lemma processCommand_hit_world (options : UseVoiceCommandsOptions)
  (t : string) (w : World) (c : VoiceCommand) :
  first_match options (trim (toLowerCase t)) = Some c ->
  exec (processCommand options t) w =
  exec (call_with (onCommand options) c)
    (exec (call (handler_for options c))
       {| isListening := isListening w; isSupported := isSupported w;
          lastCommand := Some c; recognitionRef := recognitionRef w;
          sessions := sessions w;
          trace := trace w ++
            [EConsoleLog ["Voice command received:"; trim (toLowerCase t)];
             ESetLastCommand c;
             EAnnounce ("Command recognized: " ++ VoiceCommand_str c)%string] |}).
Proof.
  unfold first_match. intros H.
  destruct (find (matches (trim (toLowerCase t))) (commands options))
    as [e|] eqn:Hf; [|discriminate].
  injection H as <-.
  destruct (find_first _ _ _ Hf) as [pre [post [Heq [Hpre He]]]].
  assert (Hin : In e (commands options))
    by (rewrite Heq; apply in_or_app; right; now left).
  unfold exec at 1. unfold processCommand, bind, console_log.
  rewrite emit_extend.
  rewrite Heq, loop_skips by exact Hpre. rewrite loop_hit by exact He.
  rewrite (handler_in_table _ _ Hin), recognized_world. simpl.
  now rewrite <- app_assoc.
Qed.

(** Each callback of the page speaks first, and what follows is silent;
    it touches no state of the hook. *)
Lemma Scan_handler_shape (state : AppState) (c : VoiceCommand) :
  exists (g : Callback) (text : string) (rest : list Effect),
    handler_for (Scan.options state) c = Some g /\
    filter audible rest = [] /\
    forall w, g w = extend w (ESpeak text :: rest).
Proof.
  assert (D : currentProduct state = None \/
              exists p, currentProduct state = Some p)
    by (destruct (currentProduct state) as [p|]; [right; now exists p | now left]).
  assert (E : detections state = [] \/
              exists d ds, detections state = d :: ds)
    by (destruct (detections state) as [|d ds];
        [now left | right; now exists d, ds]).
  destruct c; simpl; eexists.
  - exists "Capturing image.", [EDispatch (keydown " " "Space" false false)].
    repeat split. intros w. unfold exec, Scan.onCapture. run_m.
    unfold extend. simpl. now rewrite <- app_assoc.
  - destruct D as [D|[p D]].
    + exists "No product selected. Please scan a product first.", [].
      repeat split. intros w. unfold exec, Scan.onAdd. now rewrite D.
    + exists "Adding item to cart.",
        [EDispatch (keydown "a" EmptyString false false)].
      repeat split. intros w. unfold exec, Scan.onAdd. rewrite D. run_m.
      unfold extend. simpl. now rewrite <- app_assoc.
  - destruct E as [E|[d [ds E]]].
    + exists "No product detected. Please point camera at a product first.", [].
      repeat split. intros w. unfold exec, Scan.onDetails. now rewrite E.
    + exists "Opening product details.". eexists.
      split; [reflexivity|]. split; [|intros w].
      2: { unfold exec, Scan.onDetails. rewrite E. run_m.
           unfold extend. simpl. rewrite <- !app_assoc. reflexivity. }
      reflexivity.
  - exists "Going to cart.", [ENavigate "/cart"].
    repeat split. intros w. unfold exec, Scan.onCart. run_m.
    unfold extend. simpl. now rewrite <- app_assoc.
  - exists "Opening help page.", [ENavigate "/help"].
    repeat split. intros w. unfold exec, Scan.onHelp. run_m.
    unfold extend. simpl. now rewrite <- app_assoc.
  - exists "Starting camera.", [EDispatch (keydown "C" EmptyString true true)].
    repeat split. intros w. unfold exec, Scan.onStart. run_m.
    unfold extend. simpl. now rewrite <- app_assoc.
  - exists "Stopping camera.", [EDispatch (keydown "C" EmptyString true true)].
    repeat split. intros w. unfold exec, Scan.onStop. run_m.
    unfold extend. simpl. now rewrite <- app_assoc.
  - exists "Undoing last action.", [EDispatch (keydown "u" EmptyString false false)].
    repeat split. intros w. unfold exec, Scan.onUndo. run_m.
    unfold extend. simpl. now rewrite <- app_assoc.
Qed.

(** X17. On the Scan page every recognized command [c] gives exactly two
    audible messages, whatever the application state: the hook's
    announcement "Command recognized: c", then one spoken sentence of the
    page; the only hook state that changes is [lastCommand], which becomes
    [c]. *)
Theorem Scan_command_feedback (state : AppState) (t : string) (w : World)
  (c : VoiceCommand) :
  result (processCommand (Scan.options state) t) w = Some c ->
  exists (text : string) (rest : list Effect),
    filter audible rest = [] /\
    exec (processCommand (Scan.options state) t) w =
    {| isListening := isListening w; isSupported := isSupported w;
       lastCommand := Some c; recognitionRef := recognitionRef w;
       sessions := sessions w;
       trace := trace w ++
         [EConsoleLog ["Voice command received:"; trim (toLowerCase t)];
          ESetLastCommand c;
          EAnnounce ("Command recognized: " ++ VoiceCommand_str c)%string;
          ESpeak text] ++ rest |}.
Proof.
  rewrite result_first_match. intros H.
  rewrite (processCommand_hit_world _ t w c H).
  destruct (Scan_handler_shape state c) as [g [text [rest [Hg [Hrest Hw]]]]].
  exists text, rest. split; [exact Hrest|].
  rewrite Hg. unfold exec, call, call_with. simpl.
  rewrite Hw. unfold extend. simpl. now rewrite <- app_assoc.
Qed.

Lemma Scan_command_feedback_witness :
  exists (text : string) (rest : list Effect),
    filter audible rest = [] /\
    exec (processCommand
            (Scan.options {| currentProduct := None; detections := [] |})
            "I need HELP") initial =
    {| isListening := false; isSupported := false;
       lastCommand := Some help; recognitionRef := None; sessions := [];
       trace := [] ++
         [EConsoleLog ["Voice command received:"; "i need help"];
          ESetLastCommand help;
          EAnnounce "Command recognized: help";
          ESpeak text] ++ rest |}.
Proof.
  apply (Scan_command_feedback
           {| currentProduct := None; detections := [] |}
           "I need HELP" initial help).
  reflexivity.
Defined.

(** X18. The page's details callback: with no detection it only speaks
    "No product detected. Please point camera at a product first."; with
    detections it speaks "Opening product details.", sets the current
    product from the first detection alone (its label as the name, its
    suggested product id, or PRD001 when that is missing or empty, and the
    two fixed variants) and then opens the product modal. *)
Theorem Scan_onDetails_spec (state : AppState) (w : World) :
  (detections state = [] ->
   Scan.onDetails state w =
   (tt, extend w [ESpeak "No product detected. Please point camera at a product first."])) /\
  (forall d ds, detections state = d :: ds ->
   exists p : Product,
     Scan.onDetails state w =
     (tt, extend w [ESpeak "Opening product details.";
                    EAppDispatch (SET_CURRENT_PRODUCT p);
                    EAppDispatch (TOGGLE_PRODUCT_MODAL true)]) /\
     name p = label d /\
     (suggestedProductId d = None -> productId p = "PRD001") /\
     (suggestedProductId d = Some EmptyString -> productId p = "PRD001") /\
     (forall i, suggestedProductId d = Some i -> i <> EmptyString ->
                productId p = i) /\
     variants p =
       [ {| variantId := "V1"; size := "500 ml"; price := 45; unitPrice := 90;
            stock := 12 |};
         {| variantId := "V2"; size := "1 L"; price := 80; unitPrice := 80;
            stock := 3 |} ]).
Proof.
  unfold Scan.onDetails. split.
  - intros ->. reflexivity.
  - intros d ds ->. eexists. split.
    + run_m. unfold extend. simpl. rewrite <- !app_assoc. reflexivity.
    + simpl. repeat split.
      * now intros ->.
      * now intros ->.
      * intros i -> Hi. destruct i; [congruence | reflexivity].
Qed.

Lemma Scan_onDetails_spec_witness :
  Scan.onDetails {| currentProduct := None; detections := [] |} initial =
    (tt, extend initial
           [ESpeak "No product detected. Please point camera at a product first."]) /\
  exists p : Product,
    Scan.onDetails
      {| currentProduct := None;
         detections := [ {| label := "Milk"; suggestedProductId := Some EmptyString |};
                         {| label := "Tea"; suggestedProductId := Some "PRD007" |} ] |}
      initial =
    (tt, extend initial [ESpeak "Opening product details.";
                         EAppDispatch (SET_CURRENT_PRODUCT p);
                         EAppDispatch (TOGGLE_PRODUCT_MODAL true)]) /\
    name p = "Milk" /\ productId p = "PRD001".
Proof.
  split.
  - apply (proj1 (Scan_onDetails_spec
                    {| currentProduct := None; detections := [] |} initial)).
    reflexivity.
  - destruct (proj2 (Scan_onDetails_spec
        {| currentProduct := None;
           detections := [ {| label := "Milk"; suggestedProductId := Some EmptyString |};
                           {| label := "Tea"; suggestedProductId := Some "PRD007" |} ] |}
        initial) _ _ eq_refl) as [p [H1 [H2 [_ [H4 _]]]]].
    exists p. split; [exact H1|]. split; [exact H2 | exact (H4 eq_refl)].
Defined.

(** X19. On the Scan page the voice commands start and stop synthesize
    the same keyboard event, Ctrl+Shift+C: whichever of the two is
    recognized, the events dispatched to the window are identical. *)
Theorem Scan_start_stop_same_key (state : AppState) (t1 t2 : string)
  (w : World) :
  result (processCommand (Scan.options state) t1) w = Some start ->
  result (processCommand (Scan.options state) t2) w = Some stop ->
  filter is_dispatch (trace (exec (processCommand (Scan.options state) t1) w)) =
    filter is_dispatch (trace w) ++
    [EDispatch {| ev_type := "keydown"; key := "C"; code := EmptyString;
                  ctrlKey := true; shiftKey := true |}] /\
  filter is_dispatch (trace (exec (processCommand (Scan.options state) t2) w)) =
  filter is_dispatch (trace (exec (processCommand (Scan.options state) t1) w)).
Proof.
  rewrite !result_first_match. intros H1 H2.
  rewrite (processCommand_hit_world _ t1 w start H1).
  rewrite (processCommand_hit_world _ t2 w stop H2).
  unfold exec. simpl. run_m.
  rewrite <- !app_assoc, !filter_app. simpl. split; reflexivity.
Qed.

Lemma Scan_start_stop_same_key_witness :
  filter is_dispatch
    (trace (exec (processCommand
                    (Scan.options {| currentProduct := None; detections := [] |})
                    "open camera") initial)) =
    filter is_dispatch (trace initial) ++
    [EDispatch {| ev_type := "keydown"; key := "C"; code := EmptyString;
                  ctrlKey := true; shiftKey := true |}] /\
  filter is_dispatch
    (trace (exec (processCommand
                    (Scan.options {| currentProduct := None; detections := [] |})
                    "close camera") initial)) =
  filter is_dispatch
    (trace (exec (processCommand
                    (Scan.options {| currentProduct := None; detections := [] |})
                    "open camera") initial)).
Proof.
  apply (Scan_start_stop_same_key
           {| currentProduct := None; detections := [] |}
           "open camera" "close camera" initial); reflexivity.
Defined.

(* ================================================================= *)
(** ** Toggling, and what a result means *)

Lemma toggle_when_idle (w : World) :
  isListening w = false -> toggleListening w = startListening w.
Proof. intros H. unfold toggleListening, bind, get. now rewrite H. Qed.

Lemma toggle_when_listening (w : World) :
  isListening w = true -> toggleListening w = stopListening w.
Proof. intros H. unfold toggleListening, bind, get. now rewrite H. Qed.

(** X15. Toggling follows [isListening]: on a hook that is not listening,
    in a supporting browser, toggle, the engine's [start] event and toggle
    again do exactly what start, the [start] event and stop do, so the hook
    ends idle with no owned session. *)
Theorem toggle_round_trip (options : UseVoiceCommandsOptions) (w : World) :
  isSupported w = true -> isListening w = false ->
  let n := length (sessions w) in
  run options [AToggle; AEngine (EvStart n); AToggle] w =
    run options [AStart; AEngine (EvStart n); AStop] w /\
  isListening (run options [AToggle; AEngine (EvStart n); AToggle] w) = false /\
  recognitionRef (run options [AToggle; AEngine (EvStart n); AToggle] w) = None.
Proof.
  intros Hs Hl. cbv zeta.
  assert (E : run options [AToggle; AEngine (EvStart (length (sessions w))); AToggle] w =
              run options [AStart; AEngine (EvStart (length (sessions w))); AStop] w).
  { unfold run, exec, step, deliver.
    rewrite (toggle_when_idle w Hl), (startListening_supported w Hs). cbn [snd].
    rewrite onstart_world. cbn [snd].
    now rewrite toggle_when_listening by reflexivity. }
  rewrite E. unfold run, exec, step, deliver.
  rewrite (startListening_supported w Hs). cbn [snd].
  rewrite onstart_world. cbn [snd].
  rewrite (stopListening_owned _ (length (sessions w))) by reflexivity.
  repeat split.
Qed.

Lemma toggle_round_trip_witness :
  run no_options [AToggle; AEngine (EvStart 0); AToggle] mounted =
    run no_options [AStart; AEngine (EvStart 0); AStop] mounted /\
  isListening (run no_options [AToggle; AEngine (EvStart 0); AToggle] mounted)
    = false /\
  recognitionRef (run no_options [AToggle; AEngine (EvStart 0); AToggle] mounted)
    = None.
Proof.
  apply (toggle_round_trip no_options mounted); reflexivity.
Defined.

(** X16. With [isListening] true and no session owned, as after a [start]
    event that arrives once the session has been stopped, toggling does
    nothing at all: it dispatches to stop, which finds no handle.  The flag
    stays true until an [end] event clears it. *)
Theorem toggle_stuck_without_handle (w : World) :
  isListening w = true -> recognitionRef w = None ->
  toggleListening w = (tt, w).
Proof.
  intros Hl Hr. unfold toggleListening, bind, get. rewrite Hl.
  exact (stopListening_unowned w Hr).
Qed.

Lemma toggle_stuck_without_handle_witness :
  toggleListening
    (run no_options [AStart; AStop; AEngine (EvStart 0)] mounted) =
  (tt, run no_options [AStart; AStop; AEngine (EvStart 0)] mounted).
Proof.
  apply (toggle_stuck_without_handle
           (run no_options [AStart; AStop; AEngine (EvStart 0)] mounted));
    reflexivity.
Defined.

(** X4. [processCommand] never invents a command: when it returns [c],
    the entry of [c] has a phrase that occurs in the lowercased, trimmed
    transcript and no entry before it has one; when it returns nothing, no
    phrase of the table occurs in it. *)
Theorem processCommand_result_sound (options : UseVoiceCommandsOptions)
  (t : string) (w : World) :
  match result (processCommand options t) w with
  | Some c =>
      exists pre e post,
        commands options = pre ++ e :: post /\ command e = c /\
        Triggers (trim (toLowerCase t)) e /\
        forall e', In e' pre -> ~ Triggers (trim (toLowerCase t)) e'
  | None =>
      forall e, In e (commands options) -> ~ Triggers (trim (toLowerCase t)) e
  end.
Proof.
  rewrite result_first_match. unfold first_match.
  destruct (find (matches (trim (toLowerCase t))) (commands options))
    as [e|] eqn:Hf; simpl.
  - destruct (find_first _ _ _ Hf) as [pre [post [Heq [Hpre He]]]].
    exists pre, e, post. repeat split; auto.
    + now apply matches_iff.
    + intros e' He'. apply matches_false_iff. now apply Hpre.
  - intros e He. apply matches_false_iff. exact (find_none _ _ Hf e He).
Qed.
